(** * Super-Timer: the instruction builder, the sequence expander and the
      countdown runner of [src/app/page.tsx]

    The page is one React component, [Home].  Its state hooks and refs are
    the fields of the record [Home] below, its event handlers are functions
    on that record, and the browser's interval table (what [setInterval] and
    [clearInterval] act on) is part of the state, so that the effect of
    lines 182-208 and its cleanup can be followed step by step.

    The handlers hold JavaScript numbers as [Z], with [NaN] and [null] as
    [None].  This is what the page computes as long as every number it
    reads and holds is an integer of magnitude below [2^53], where doubles
    are exact ([exactEvent], [safeRun]).  Outside that range the page
    rounds: [Module Binary64] gives [formatTime] and [parseTimeInput]
    (lines 28-51) and the countdown's subtraction on binary64 doubles, and
    the properties of formatting, parsing and counting down are stated on
    that model or under the bound.  Strings are sequences of code units
    below 256. *)

From Stdlib Require Import ZArith String Ascii List Lia.
From stdpp Require Import base list gmap.

Local Open Scope Z_scope.

(** ** JavaScript built-ins used by the page *)

Module JS.

Definition codeUnit (c : ascii) : Z := Z.of_nat (nat_of_ascii c).

(** [StrWhiteSpaceChar] restricted to code units below 256: TAB, LF, VT,
    FF, CR, SP and NBSP. *)
Definition isWhiteSpace (c : ascii) : bool :=
  let n := codeUnit c in
  ((9 <=? n) && (n <=? 13)) || (n =? 32) || (n =? 160).

Fixpoint trimStart (s : list ascii) : list ascii :=
  match s with
  | c :: rest => if isWhiteSpace c then trimStart rest else s
  | [] => []
  end.

(** The value of a code unit as a digit: ['0'..'9'] are 0..9, letters of
    either case are 10..35. *)
Definition digitValue (c : ascii) : option Z :=
  let n := codeUnit c in
  if (48 <=? n) && (n <=? 57) then Some (n - 48)
  else if (97 <=? n) && (n <=? 122) then Some (n - 87)
  else if (65 <=? n) && (n <=? 90) then Some (n - 55)
  else None.

Definition radixDigit (R : Z) (c : ascii) : option Z :=
  match digitValue c with
  | Some d => if d <? R then Some d else None
  | None => None
  end.

(** Steps 11-14 of [parseInt]: the longest prefix of radix-[R] digits,
    read most significant digit first.  [seen] records whether the prefix
    is non-empty. *)
Fixpoint readDigits (R : Z) (s : list ascii) (seen : bool) (acc : Z) : option Z :=
  match s with
  | c :: rest =>
      match radixDigit R c with
      | Some d => readDigits R rest true (acc * R + d)
      | None => if seen then Some acc else None
      end
  | [] => if seen then Some acc else None
  end.

Definition isHexPrefix (s : list ascii) : bool :=
  match s with
  | c0 :: cx :: _ => (codeUnit c0 =? 48) && ((codeUnit cx =? 120) || (codeUnit cx =? 88))
  | _ => false
  end.

(** [parseInt(string, radix)]; [radix = 0] stands for an omitted radix.
    The result is [None] for [NaN]. *)
Definition parseIntL (s : list ascii) (radix : Z) : option Z :=
  let S0 := trimStart s in
  let sign := match S0 with
              | c :: _ => if codeUnit c =? 45 then -1 else 1
              | [] => 1
              end in
  let S1 := match S0 with
            | c :: rest => if (codeUnit c =? 43) || (codeUnit c =? 45) then rest else S0
            | [] => S0
            end in
  if (radix =? 0) || ((2 <=? radix) && (radix <=? 36)) then
    let stripPrefix := (radix =? 0) || (radix =? 16) in
    let R := if radix =? 0 then 10 else radix in
    let '(S2, R) := if stripPrefix && isHexPrefix S1 then (drop 2 S1, 16) else (S1, R) in
    match readDigits R S2 false 0 with
    | Some mathInt => Some (sign * mathInt)
    | None => None
    end
  else None.

Definition parseInt (s : string) (radix : Z) : option Z :=
  parseIntL (list_ascii_of_string s) radix.

(** [String.prototype.split] with a one-code-unit separator: the result
    always has at least one field. *)
Fixpoint splitL (sep : ascii) (s : list ascii) : list (list ascii) :=
  match s with
  | [] => [[]]
  | c :: rest =>
      if Ascii.eqb c sep then [] :: splitL sep rest
      else match splitL sep rest with
           | f :: fs => (c :: f) :: fs
           | [] => [[c]]
           end
  end.

Definition digitChar (d : Z) : ascii := ascii_of_nat (Z.to_nat (48 + d)).

(** Decimal digits of a non-negative integer, most significant first,
    pushed in front of [acc]. *)
Fixpoint digitsOf (fuel : nat) (n : Z) (acc : list ascii) : list ascii :=
  match fuel with
  | O => acc
  | S fuel' =>
      let acc' := digitChar (n mod 10) :: acc in
      if n <? 10 then acc' else digitsOf fuel' (n / 10) acc'
  end.

(** [Number.prototype.toString()] on an integer. *)
Definition toStringL (n : Z) : list ascii :=
  if n <? 0
  then "-"%char :: digitsOf (S (Z.to_nat (Z.log2 (- n)))) (- n) []
  else digitsOf (S (Z.to_nat (Z.log2 n))) n [].

(** [String.prototype.padStart(targetLength, fill)] with a one-code-unit
    fill string. *)
Definition padStartL (s : list ascii) (targetLength : nat) (fill : ascii) : list ascii :=
  replicate (targetLength - length s)%nat fill ++ s.

(** Truthiness of a string-or-null value, as in [if (newTimeStr)]. *)
Definition truthy (r : option string) : bool :=
  match r with
  | Some s => negb (String.eqb s EmptyString)
  | None => false
  end.

End JS.

(** ** Data model (lines 5-16) *)

Record TimeInstruction := mkTime { ti_id : nat; ti_time : Z }.

Inductive Instruction :=
| ITime (inst : TimeInstruction)
| IRepeat (id : nat) (times : Z).

Definition inst_id (inst : Instruction) : nat :=
  match inst with
  | ITime t => ti_id t
  | IRepeat id _ => id
  end.

Definition isTime (inst : Instruction) : bool :=
  match inst with
  | ITime _ => true
  | IRepeat _ _ => false
  end.

Record SavedTimer := mkSaved {
  st_id : nat;
  st_name : string;
  st_instructions : list Instruction
}.

(** ** Time formatting and parsing (lines 28-51) *)

Definition colon : ascii := ":"%char.

Definition pad2 (n : Z) : list ascii := JS.padStartL (JS.toStringL n) 2 "0"%char.

Definition formatTimeL (totalSeconds : Z) : list ascii :=
  let hrs := totalSeconds / 3600 in
  let mins := Z.rem totalSeconds 3600 / 60 in
  let secs := Z.rem totalSeconds 60 in
  pad2 hrs ++ colon :: pad2 mins ++ colon :: pad2 secs.

Definition formatTime (totalSeconds : Z) : string :=
  string_of_list_ascii (formatTimeL totalSeconds).

(** [parts.some(isNaN)] *)
Definition someNaN (parts : list (option Z)) : bool :=
  existsb (fun p => match p with None => true | Some _ => false end) parts.

Definition parseTimeInputL (input : list ascii) : option Z :=
  let parts := map (fun s => JS.parseIntL s 10) (JS.splitL colon input) in
  if someNaN parts then None
  else match parts with
       | [Some hrs; Some mins; Some secs] => Some (hrs * 3600 + mins * 60 + secs)
       | [Some mins; Some secs] => Some (mins * 60 + secs)
       | [Some secs] => Some secs
       | _ => None
       end.

Definition parseTimeInput (input : string) : option Z :=
  parseTimeInputL (list_ascii_of_string input).

(** ** The same two functions on doubles *)

(** [formatTime] and [parseTimeInput] above compute with exact integers.
    The page computes with binary64 doubles.  Every number these two
    functions meet is an integer-valued double, an infinity or [NaN] (an
    input of [formatTime] that [parseTimeInput] or a countdown produced is
    one of these too), so the doubles are modelled by their integer value,
    with the rounding of IEEE 754 (to nearest, ties to even) written out.
    The double [-0] is identified with [0]: the page never prints it nor
    divides by it. *)

Module Binary64.

Inductive number :=
| Int (z : Z)
| PosInf
| NegInf
| NaN.

(** The integer nearest to [a / b] for [0 < b], the even one on a tie. *)
Definition nearestEven (a b : Z) : Z :=
  let q := a / b in
  let r := a mod b in
  if 2 * r <? b then q
  else if b <? 2 * r then q + 1
  else if Z.even q then q else q + 1.

(** The Number value of a mathematical integer: itself below [2^53], and
    above that the nearest integer with a 53-bit significand, or an infinity
    from [2^1024] on. *)
Definition ofZ (x : Z) : number :=
  if Z.abs x <? 2 ^ 53 then Int x
  else
    let u := 2 ^ (Z.log2 (Z.abs x) - 52) in
    let y := u * nearestEven x u in
    if 2 ^ 1024 <=? Z.abs y then (if x <? 0 then NegInf else PosInf) else Int y.

Definition isNaN (x : number) : bool :=
  match x with NaN => true | _ => false end.

(** [x * y] *)
Definition mul (x y : number) : number :=
  match x, y with
  | NaN, _ | _, NaN => NaN
  | Int a, Int b => ofZ (a * b)
  | Int a, PosInf | PosInf, Int a =>
      if a =? 0 then NaN else if 0 <? a then PosInf else NegInf
  | Int a, NegInf | NegInf, Int a =>
      if a =? 0 then NaN else if 0 <? a then NegInf else PosInf
  | PosInf, PosInf | NegInf, NegInf => PosInf
  | PosInf, NegInf | NegInf, PosInf => NegInf
  end.

(** [x + y] *)
Definition add (x y : number) : number :=
  match x, y with
  | NaN, _ | _, NaN => NaN
  | Int a, Int b => ofZ (a + b)
  | PosInf, NegInf | NegInf, PosInf => NaN
  | PosInf, _ | _, PosInf => PosInf
  | NegInf, _ | _, NegInf => NegInf
  end.

(** [x - y] *)
Definition sub (x y : number) : number :=
  match x, y with
  | NaN, _ | _, NaN => NaN
  | Int a, Int b => ofZ (a - b)
  | PosInf, PosInf | NegInf, NegInf => NaN
  | PosInf, _ | _, NegInf => PosInf
  | NegInf, _ | _, PosInf => NegInf
  end.

(** [x > 0] and [x <= 0]: both are false of [NaN]. *)
Definition positive (x : number) : bool :=
  match x with
  | Int a => 0 <? a
  | PosInf => true
  | NegInf | NaN => false
  end.

Definition notPositive (x : number) : bool :=
  match x with
  | Int a => a <=? 0
  | NegInf => true
  | PosInf | NaN => false
  end.

(** [Math.floor(a / d)] for integers [a] and [0 < d < 2^54]: the quotient
    is rounded to the nearest double before [Math.floor] sees it.  With
    [2^e <= |a / d| < 2^(e+1)], doubles are [2^(e-52)] apart. *)
Definition divFloor (a d : Z) : Z :=
  if a =? 0 then 0
  else if Z.abs a <? d then (if a <? 0 then -1 else 0)
  else
    let e := Z.log2 (Z.abs a / d) in
    if e <=? 52
    then nearestEven (a * 2 ^ (52 - e)) d / 2 ^ (52 - e)
    else 2 ^ (e - 52) * nearestEven a (d * 2 ^ (e - 52)).

Definition floorDiv (x : number) (d : Z) : number :=
  match x with
  | Int a => Int (divFloor a d)
  | other => other
  end.

(** [x % d] for an integer [0 < d]: exact, with the sign of [x]. *)
Definition rem (x : number) (d : Z) : number :=
  match x with
  | Int a => Int (Z.rem a d)
  | _ => NaN
  end.

(** [Number.prototype.toString()].  From [2^53] on, where the digits are
    the shortest that read back as the same double (and exponent notation
    starts at [1e21]), the printer is not modelled: [None]. *)
Definition toStringL (x : number) : option (list ascii) :=
  match x with
  | Int a => if Z.abs a <? 2 ^ 53 then Some (JS.toStringL a) else None
  | PosInf => Some (list_ascii_of_string "Infinity")
  | NegInf => Some (list_ascii_of_string "-Infinity")
  | NaN => Some (list_ascii_of_string "NaN")
  end.

(** [parseInt(string, radix)]: the Number value of [sign × mathInt], where
    [JS.parseIntL] gives the mathematical integer.  (For more than 20
    significant digits the language lets an implementation replace the later
    digits by zeros; the exact value is taken here.) *)
Definition parseIntL (s : list ascii) (radix : Z) : number :=
  match JS.parseIntL s radix with
  | Some z => ofZ z
  | None => NaN
  end.

Definition pad2 (x : number) : option (list ascii) :=
  match toStringL x with
  | Some s => Some (JS.padStartL s 2 "0"%char)
  | None => None
  end.

(** Lines 28-35. *)
Definition formatTimeL (totalSeconds : number) : option (list ascii) :=
  let hrs := floorDiv totalSeconds 3600 in
  let mins := floorDiv (rem totalSeconds 3600) 60 in
  let secs := rem totalSeconds 60 in
  match pad2 hrs, pad2 mins, pad2 secs with
  | Some h, Some m, Some s => Some (h ++ colon :: m ++ colon :: s)
  | _, _, _ => None
  end.

Definition formatTime (totalSeconds : number) : option string :=
  match formatTimeL totalSeconds with
  | Some l => Some (string_of_list_ascii l)
  | None => None
  end.

(** Lines 38-51; [None] is [null]. *)
Definition parseTimeInputL (input : list ascii) : option number :=
  let parts := map (fun s => parseIntL s 10) (JS.splitL colon input) in
  if existsb isNaN parts then None
  else match parts with
       | [hrs; mins; secs] => Some (add (add (mul hrs (Int 3600)) (mul mins (Int 60))) secs)
       | [mins; secs] => Some (add (mul mins (Int 60)) secs)
       | [secs] => Some secs
       | _ => None
       end.

Definition parseTimeInput (input : string) : option number :=
  parseTimeInputL (list_ascii_of_string input).

(** [parseTimeInput(formatTime(x))] *)
Definition roundTrip (x : number) : option number :=
  match formatTime x with
  | Some str => parseTimeInput str
  | None => None
  end.

End Binary64.

(** An integer below [2^53] in magnitude: a double that integer arithmetic
    reaches without rounding. *)
Definition safe (n : Z) : Prop := Z.abs n < 2 ^ 53.

(** ** The sequence expander (lines 123-136) *)

(** The inner loop [for (let i = 0; i < inst.times; i++) flattened.push(...copy)]:
    it runs [n] times, where [n] is the number of [i >= 0] below [inst.times]. *)
Fixpoint pushCopies (n : nat) (copy flattened : list TimeInstruction) : list TimeInstruction :=
  match n with
  | O => flattened
  | S n' => pushCopies n' copy (flattened ++ copy)
  end.

Definition flattenStep (flattened : list TimeInstruction) (inst : Instruction)
  : list TimeInstruction :=
  match inst with
  | ITime t => flattened ++ [t]
  | IRepeat _ times =>
      let copy := flattened in
      pushCopies (Z.to_nat times) copy flattened
  end.

Definition flattenInstructionsEntire (instrs : list Instruction) : list TimeInstruction :=
  fold_left flattenStep instrs [].

(** The flat sequence as the spec sees it: the durations only. *)
Definition durations (seq : list TimeInstruction) : list Z := map ti_time seq.

(** The spec's instructions, with identifiers as the builder would assign
    them (position in the list). *)
Inductive Step := Wait (d : Z) | Repeat (k : Z).

Definition instructionOf (id : nat) (s : Step) : Instruction :=
  match s with
  | Wait d => ITime (mkTime id d)
  | Repeat k => IRepeat id k
  end.

Definition expand (steps : list Step) : list Z :=
  durations (flattenInstructionsEntire (imap instructionOf steps)).

(** [k] copies of a list, one after the other. *)
Fixpoint copies {A} (k : nat) (l : list A) : list A :=
  match k with
  | O => []
  | S k' => l ++ copies k' l
  end.

(** ** The component state *)

(** The three groups of hooks follow the three sections of the component:
    the instructions builder (lines 20-25), the program execution
    (lines 139-146) and the saved timers (lines 211-214). *)

Record Builder := mkBuilder {
  instructions : list Instruction;
  timeInput : string;
  repeatInput : Z;
  instructionIdRef : nat;
  editingRef : bool
}.

Record ProgramState := mkProgramState { index : nat; countdown : Z }.

(** [sequenceArray] is the identity of the array object held in
    [flattenedSequence]: the dependency list of the countdown effect compares
    arrays by identity, and every [setFlattenedSequence] of the page stores a
    newly built array. *)
Record Execution := mkExecution {
  flattenedSequence : list TimeInstruction;
  sequenceArray : nat;
  programState : ProgramState;
  isProgramRunning : bool;
  programIntervalRef : option nat
}.

Record Saved := mkSavedHooks {
  savedTimers : list SavedTimer;
  savedTimerName : string;
  loadedTimerId : option nat;
  savedTimerIdRef : nat
}.

(** What the component acts on outside React: the browser's table of live
    intervals (each with the [flattenedSequence] its callback closed over),
    the next interval handle, the number of times the notification sound was
    played, and the [savedTimers] slot of local storage ([None]: absent or
    not parsable). *)
Record Browser := mkBrowser {
  timers : gmap nat (list TimeInstruction);
  nextTimer : nat;
  audioPlays : nat;
  localStorage : option (list SavedTimer)
}.

Record Home := mkHome {
  builder : Builder;
  execution : Execution;
  saved : Saved;
  browser : Browser
}.

Definition withBuilder (b : Builder) (s : Home) : Home :=
  mkHome b (execution s) (saved s) (browser s).
Definition withExecution (e : Execution) (s : Home) : Home :=
  mkHome (builder s) e (saved s) (browser s).
Definition withSaved (v : Saved) (s : Home) : Home :=
  mkHome (builder s) (execution s) v (browser s).
Definition withBrowser (w : Browser) (s : Home) : Home :=
  mkHome (builder s) (execution s) (saved s) w.

(** ** Instructions builder (lines 54-115) *)

Definition setInstructions (l : list Instruction) (s : Home) : Home :=
  let b := builder s in
  withBuilder (mkBuilder l (timeInput b) (repeatInput b) (instructionIdRef b) (editingRef b)) s.

Definition setTimeInput (v : string) (s : Home) : Home :=
  let b := builder s in
  withBuilder (mkBuilder (instructions b) v (repeatInput b) (instructionIdRef b) (editingRef b)) s.

(** The [onChange] of the repeat field (lines 314-316):
    [setRepeatInput(parseInt(e.target.value) || 1)]. *)
Definition onRepeatInputChange (value : string) (s : Home) : Home :=
  let b := builder s in
  let v := match JS.parseInt value 0 with
           | Some n => if n =? 0 then 1 else n
           | None => 1
           end in
  withBuilder (mkBuilder (instructions b) (timeInput b) v (instructionIdRef b) (editingRef b)) s.

Definition addTimeInstruction (s : Home) : Home :=
  let b := builder s in
  match parseTimeInput (timeInput b) with
  | None => s
  | Some seconds =>
      if seconds <=? 0 then s
      else
        let newInst := ITime (mkTime (instructionIdRef b) seconds) in
        withBuilder (mkBuilder (instructions b ++ [newInst]) EmptyString (repeatInput b)
                               (S (instructionIdRef b)) (editingRef b)) s
  end.

Definition addRepeatInstruction (s : Home) : Home :=
  let b := builder s in
  if negb (existsb isTime (instructions b)) then s
  else
    let newInst := IRepeat (instructionIdRef b) (repeatInput b) in
    withBuilder (mkBuilder (instructions b ++ [newInst]) (timeInput b) (repeatInput b)
                           (S (instructionIdRef b)) (editingRef b)) s.

(** The body of the [map] callback of [editInstruction] for an instruction
    whose id matches, given what [window.prompt] returned. *)
Definition editOne (inst : Instruction) (reply : option string) : Instruction :=
  match inst with
  | ITime t =>
      match reply with
      | Some newTimeStr =>
          if JS.truthy reply then
            match parseTimeInput newTimeStr with
            | Some newSeconds =>
                if 0 <? newSeconds then ITime (mkTime (ti_id t) newSeconds) else inst
            | None => inst
            end
          else inst
      | None => inst
      end
  | IRepeat id times =>
      match reply with
      | Some newRepeatStr =>
          if JS.truthy reply then
            match JS.parseInt newRepeatStr 10 with
            | Some newRepeat => if 0 <? newRepeat then IRepeat id newRepeat else inst
            | None => inst
            end
          else inst
      | None => inst
      end
  end.

(** [prev.map(...)] of [editInstruction]: one prompt per instruction whose
    id matches, answered in order by [replies] (no answer left: cancelled). *)
Fixpoint editAll (id : nat) (prev : list Instruction) (replies : list (option string))
  : list Instruction :=
  match prev with
  | [] => []
  | inst :: rest =>
      if Nat.eqb (inst_id inst) id
      then editOne inst (default None (head replies)) :: editAll id rest (tail replies)
      else inst :: editAll id rest replies
  end.

Definition editInstruction (id : nat) (replies : list (option string)) (s : Home) : Home :=
  let b := builder s in
  if editingRef b then s
  else withBuilder (mkBuilder (editAll id (instructions b) replies) (timeInput b)
                              (repeatInput b) (instructionIdRef b) false) s.

Definition deleteInstruction (id : nat) (s : Home) : Home :=
  setInstructions (filter (fun inst => inst_id inst ≠ id) (instructions (builder s))) s.

Definition clearInstructions (s : Home) : Home := setInstructions [] s.

(** ** Program execution (lines 149-208) *)

Definition startProgram (s : Home) : Home :=
  let e := execution s in
  let sequence := flattenInstructionsEntire (instructions (builder s)) in
  match sequence with
  | [] => s
  | first :: _ =>
      withExecution (mkExecution sequence (S (sequenceArray e))
                                 (mkProgramState 0 (ti_time first)) true
                                 (programIntervalRef e)) s
  end.

(** [if (programIntervalRef.current) clearInterval(programIntervalRef.current)]:
    the handle [0] is falsy, like [null]. *)
Definition clearProgramInterval (s : Home) : Home :=
  match programIntervalRef (execution s) with
  | Some h =>
      if Nat.eqb h 0 then s
      else
        let w := browser s in
        withBrowser (mkBrowser (delete h (timers w)) (nextTimer w) (audioPlays w)
                               (localStorage w)) s
  | None => s
  end.

Definition stopProgram (s : Home) : Home :=
  let e := execution s in
  clearProgramInterval
    (withExecution (mkExecution (flattenedSequence e) (sequenceArray e) (programState e)
                                false (programIntervalRef e)) s).

(** [editCurrentInstruction], given what [window.prompt] returned.  [None]
    is the [TypeError] of [currentInst.time] when the index is outside the
    array; it is thrown before any state is set. *)
Definition editCurrentInstruction (reply : option string) (s : Home) : option Home :=
  let e := execution s in
  if negb (isProgramRunning e) then Some s
  else
    match flattenedSequence e !! index (programState e) with
    | None => None
    | Some currentInst =>
        match reply with
        | Some newTimeStr =>
            if JS.truthy reply then
              match parseTimeInput newTimeStr with
              | Some newSeconds =>
                  if 0 <? newSeconds then
                    let i := index (programState e) in
                    let newArr :=
                      <[i := mkTime (ti_id currentInst) newSeconds]> (flattenedSequence e) in
                    Some (withExecution
                            (mkExecution newArr (S (sequenceArray e))
                                         (mkProgramState i newSeconds)
                                         (isProgramRunning e) (programIntervalRef e)) s)
                  else Some s
              | None => Some s
              end
            else Some s
        | None => Some s
        end
    end.

(** [audioRef.current.play()]: the audio element is always rendered
    (line 282), so the ref is set after mount. *)
Definition playNotification (s : Home) : Home :=
  let w := browser s in
  withBrowser (mkBrowser (timers w) (nextTimer w) (S (audioPlays w)) (localStorage w)) s.

(** The interval callback (lines 184-203); [sequence] is the
    [flattenedSequence] of the render in which the interval was created. *)
Definition intervalCallback (sequence : list TimeInstruction) (s : Home) : Home :=
  let e := execution s in
  let prev := programState e in
  if 0 <? countdown prev then
    withExecution (mkExecution (flattenedSequence e) (sequenceArray e)
                               (mkProgramState (index prev) (countdown prev - 1))
                               (isProgramRunning e) (programIntervalRef e)) s
  else
    let s := playNotification s in
    let newIndex := S (index prev) in
    match sequence !! newIndex with
    | Some next =>
        withExecution (mkExecution (flattenedSequence e) (sequenceArray e)
                                   (mkProgramState newIndex (ti_time next))
                                   (isProgramRunning e) (programIntervalRef e)) s
    | None =>
        withExecution (mkExecution (flattenedSequence e) (sequenceArray e) prev
                                   false (programIntervalRef e)) s
    end.

(** The body of the countdown effect (lines 183-204). *)
Definition countdownEffect (s : Home) : Home :=
  let e := execution s in
  if isProgramRunning e then
    let w := browser s in
    let h := nextTimer w in
    mkHome (builder s)
           (mkExecution (flattenedSequence e) (sequenceArray e) (programState e)
                        (isProgramRunning e) (Some h))
           (saved s)
           (mkBrowser (<[h := flattenedSequence e]> (timers w)) (S h) (audioPlays w)
                      (localStorage w))
  else s.

(** Its cleanup (lines 205-207). *)
Definition countdownCleanup (s : Home) : Home := clearProgramInterval s.

(** ** Saved timers (lines 217-277) *)

Definition setSaved (timers' : list SavedTimer) (name : string) (loaded : option nat)
    (next : nat) (s : Home) : Home :=
  withSaved (mkSavedHooks timers' name loaded next) s.

Definition setSavedTimerName (v : string) (s : Home) : Home :=
  let v0 := saved s in
  setSaved (savedTimers v0) v (loadedTimerId v0) (savedTimerIdRef v0) s.

(** [!savedTimerName.trim()]: the trimmed name is empty when every code unit
    of the name is white space. *)
Definition isBlank (name : string) : bool :=
  forallb JS.isWhiteSpace (list_ascii_of_string name).

Definition saveOrUpdateTimer (s : Home) : Home :=
  let v := saved s in
  let instrs := instructions (builder s) in
  if isBlank (savedTimerName v) || Nat.eqb (length instrs) 0 then s
  else
    match loadedTimerId v with
    | Some loaded =>
        setSaved
          (map (fun timer =>
                  if Nat.eqb (st_id timer) loaded
                  then mkSaved (st_id timer) (savedTimerName v) instrs
                  else timer) (savedTimers v))
          EmptyString None (savedTimerIdRef v) s
    | None =>
        let newSaved := mkSaved (savedTimerIdRef v) (savedTimerName v) instrs in
        setSaved (savedTimers v ++ [newSaved]) EmptyString (loadedTimerId v)
                 (S (savedTimerIdRef v)) s
    end.

Definition loadTimer (timer : SavedTimer) (s : Home) : Home :=
  let v := saved s in
  setSaved (savedTimers v) (st_name timer) (Some (st_id timer)) (savedTimerIdRef v)
           (setInstructions (st_instructions timer) s).

Definition editSavedTimer (id : nat) (reply : option string) (s : Home) : Home :=
  let v := saved s in
  match reply with
  | Some newName =>
      if JS.truthy reply then
        setSaved
          (map (fun timer =>
                  if Nat.eqb (st_id timer) id
                  then mkSaved (st_id timer) newName (st_instructions timer)
                  else timer) (savedTimers v))
          (savedTimerName v) (loadedTimerId v) (savedTimerIdRef v) s
      else s
  | None => s
  end.

Definition deleteSavedTimer (id : nat) (s : Home) : Home :=
  let v := saved s in
  setSaved (filter (fun timer => st_id timer ≠ id) (savedTimers v))
           (savedTimerName v) (loadedTimerId v) (savedTimerIdRef v) s.

(** The effect of lines 229-231.  It is run here after every handler: when
    [savedTimers] is unchanged it writes what the slot already holds. *)
Definition saveEffect (s : Home) : Home :=
  let w := browser s in
  withBrowser (mkBrowser (timers w) (nextTimer w) (audioPlays w)
                         (Some (savedTimers (saved s)))) s.

(** ** Rendering: a handler's state updates, then the effects *)

(** The dependency list [[isProgramRunning, flattenedSequence]] of the
    countdown effect. *)
Definition countdownDepsChanged (prev next : Home) : bool :=
  negb (Bool.eqb (isProgramRunning (execution prev)) (isProgramRunning (execution next)))
  || negb (Nat.eqb (sequenceArray (execution prev)) (sequenceArray (execution next))).

(** After the updates of a handler are applied, the effects whose
    dependencies changed run again, the cleanup of the previous run first. *)
Definition render (prev next : Home) : Home :=
  saveEffect
    (if countdownDepsChanged prev next
     then countdownEffect (countdownCleanup next)
     else next).

(** The first render and its effects; [stored] is what local storage holds
    for the page. *)
Definition mount (stored : option (list SavedTimer)) : Home :=
  saveEffect
    (mkHome (mkBuilder [] EmptyString 1 0%nat false)
            (mkExecution [] 0%nat (mkProgramState 0 0) false None)
            (mkSavedHooks (default [] stored) EmptyString None 0%nat)
            (mkBrowser ∅ 1%nat 0%nat stored)).

Inductive Event :=
| TimeInputChange (value : string)
| RepeatInputChange (value : string)
| AddTimeInstruction
| AddRepeatInstruction
| EditInstruction (id : nat) (replies : list (option string))
| DeleteInstruction (id : nat)
| ClearInstructions
| StartProgram
| StopProgram
| EditCurrentInstruction (reply : option string)
| Tick (handle : nat)
| SavedTimerNameChange (value : string)
| SaveOrUpdateTimer
| LoadTimer (timer : SavedTimer)
| EditSavedTimer (id : nat) (reply : option string)
| DeleteSavedTimer (id : nat).

(** What an event does to the hooks, before rendering.  A tick of an
    interval that is not in the browser's table is not delivered. *)
Definition update (ev : Event) (s : Home) : Home :=
  match ev with
  | TimeInputChange v => setTimeInput v s
  | RepeatInputChange v => onRepeatInputChange v s
  | AddTimeInstruction => addTimeInstruction s
  | AddRepeatInstruction => addRepeatInstruction s
  | EditInstruction id replies => editInstruction id replies s
  | DeleteInstruction id => deleteInstruction id s
  | ClearInstructions => clearInstructions s
  | StartProgram => startProgram s
  | StopProgram => stopProgram s
  | EditCurrentInstruction reply => default s (editCurrentInstruction reply s)
  | Tick h =>
      match timers (browser s) !! h with
      | Some sequence => intervalCallback sequence s
      | None => s
      end
  | SavedTimerNameChange v => setSavedTimerName v s
  | SaveOrUpdateTimer => saveOrUpdateTimer s
  | LoadTimer timer => loadTimer timer s
  | EditSavedTimer id reply => editSavedTimer id reply s
  | DeleteSavedTimer id => deleteSavedTimer id s
  end.

Definition handle (ev : Event) (s : Home) : Home := render s (update ev s).

Definition run (evs : list Event) (s : Home) : Home :=
  fold_left (fun s ev => handle ev s) evs s.

(** What the page offers: the builder and the saved timers are rendered only
    while no program runs (line 287), the two program buttons only while one
    runs (line 417), and a timer can be loaded only from the list shown. *)
Definition enabled (s : Home) (ev : Event) : Prop :=
  match ev with
  | Tick _ => True
  | StopProgram | EditCurrentInstruction _ => isProgramRunning (execution s) = true
  | LoadTimer timer =>
      isProgramRunning (execution s) = false ∧ timer ∈ savedTimers (saved s)
  | _ => isProgramRunning (execution s) = false
  end.

Inductive reachable (stored : option (list SavedTimer)) : Home → Prop :=
| reachable_mount : reachable stored (mount stored)
| reachable_handle s ev :
    reachable stored s → enabled s ev → reachable stored (handle ev s).

(** The run state as the spec shows it. *)
Definition runState (s : Home) : nat * Z :=
  (index (programState (execution s)), countdown (programState (execution s))).

Definition running (s : Home) : bool := isProgramRunning (execution s).

(** ** Vocabulary of the statements about time strings *)

Definition isDigit (c : ascii) : bool :=
  (48 <=? JS.codeUnit c) && (JS.codeUnit c <=? 57).

(** A non-negative integer numeral: one or more decimal digits. *)
Definition numeral (f : list ascii) : bool :=
  match f with
  | [] => false
  | _ => forallb isDigit f
  end.

Definition numeralValue (f : list ascii) : Z :=
  fold_left (fun acc c => acc * 10 + (JS.codeUnit c - 48)) f 0.

(** The sign a field is read with: [-1] after a minus, [1] after a plus or
    no sign. *)
Definition signValue (sgn : list ascii) : Z :=
  match sgn with
  | c :: _ => if JS.codeUnit c =? 45 then -1 else 1
  | [] => 1
  end.

Definition isSign (sgn : list ascii) : bool :=
  match sgn with
  | [] => true
  | [c] => (JS.codeUnit c =? 43) || (JS.codeUnit c =? 45)
  | _ => false
  end.

(** A field's tail: empty, or starting with something that is no digit. *)
Definition endsNumeral (rest : list ascii) : bool :=
  match rest with
  | c :: _ => negb (isDigit c)
  | [] => true
  end.

Definition noColon (l : list ascii) : bool :=
  forallb (fun c => negb (Ascii.eqb c colon)) l.

(** What is left of a field once leading white space and one sign are
    removed starts with a decimal digit. *)
Definition readable (f : list ascii) : bool :=
  match JS.trimStart f with
  | c :: rest =>
      if (JS.codeUnit c =? 43) || (JS.codeUnit c =? 45)
      then match rest with d :: _ => isDigit d | [] => false end
      else isDigit c
  | [] => false
  end.

(** Fields read as [SS], [MM:SS] or [HH:MM:SS]. *)
Definition seconds (parts : list Z) : Z :=
  fold_left (fun acc n => acc * 60 + n) parts 0.

Definition fieldsOf (input : string) : list (list ascii) :=
  JS.splitL colon (list_ascii_of_string input).

(** ** Vocabulary of the statements about the runner *)

(** The interval table agrees with the hooks: while a program runs, the one
    live interval is the one held in [programIntervalRef], its callback
    closed over the current [flattenedSequence], and the current index is
    inside the sequence; while none runs, no interval is live.  Interval
    handles are positive, and local storage holds the saved timers. *)
Definition consistent (s : Home) : Prop :=
  let e := execution s in
  let w := browser s in
  (0 < nextTimer w)%nat
  ∧ (∀ h, programIntervalRef e = Some h → (0 < h < nextTimer w)%nat)
  ∧ localStorage w = Some (savedTimers (saved s))
  ∧ (if isProgramRunning e
     then (index (programState e) < length (flattenedSequence e))%nat
          ∧ ∃ h, programIntervalRef e = Some h
                 ∧ timers w = {[h := flattenedSequence e]}
     else timers w = ∅).

(** What a test of the runner observes: index and remaining seconds, the
    running flag, and how often the notification was played. *)
Definition observe (s : Home) : nat * Z * bool * nat :=
  (runState s, running s, audioPlays (browser s)).

(** The events handled by the builder and by the saved timers: they leave
    the program execution alone. *)
Definition quiet (ev : Event) : bool :=
  match ev with
  | StartProgram | StopProgram | EditCurrentInstruction _ | Tick _ => false
  | _ => true
  end.

(** Every event of a list is offered by the page when its turn comes. *)
Fixpoint enabledAll (s : Home) (evs : list Event) : Prop :=
  match evs with
  | [] => True
  | ev :: rest => enabled s ev ∧ enabledAll (handle ev s) rest
  end.

(** ** Sample sessions *)

(** A fresh page on which [2] and [1] seconds were added. *)
Definition sessionBuilt : Home :=
  run [TimeInputChange "2"; AddTimeInstruction; TimeInputChange "1"; AddTimeInstruction]
      (mount None).

(** The same, started and ticked down to the last second of the last step. *)
Definition sessionLastSecond : Home :=
  run [StartProgram; Tick 1; Tick 1; Tick 1; Tick 1] sessionBuilt.

(** A fresh page on which [5] seconds were added and [-3] was typed into
    the repeat field. *)
Definition sessionNegativeCount : Home :=
  run [TimeInputChange "5"; AddTimeInstruction; RepeatInputChange "-3"] (mount None).

(** A fresh page on which [5] seconds were added and repeated once, started;
    and the same after its current step was edited to [9] seconds. *)
Definition sessionRepeated : Home :=
  run [TimeInputChange "5"; AddTimeInstruction; AddRepeatInstruction; StartProgram]
      (mount None).

Definition sessionPatched : Home :=
  handle (EditCurrentInstruction (Some "9"%string)) sessionRepeated.

(** A first visit that saves a one-step timer, and a later visit, with what
    the first left in local storage, that loads it and adds a step. *)
Definition sessionSaved : Home :=
  run [TimeInputChange "5"; AddTimeInstruction; SavedTimerNameChange "t";
       SaveOrUpdateTimer] (mount None).

Definition sessionReloaded : Home :=
  run [LoadTimer (mkSaved 0 "t" [ITime (mkTime 0 5)]); TimeInputChange "7";
       AddTimeInstruction]
      (mount (localStorage (browser sessionSaved))).

(** ** Vocabulary of the statements about identifiers *)

Definition ids (l : list Instruction) : list nat := map inst_id l.

(** The identifiers of [l] are pairwise distinct and were all handed out by
    a counter that now stands at [next]. *)
Definition issued (next : nat) (l : list Instruction) : Prop :=
  NoDup (ids l) ∧ Forall (fun i => (i < next)%nat) (ids l).

(** This holds of the list being built and of every saved timer. *)
Definition idsIssued (s : Home) : Prop :=
  issued (instructionIdRef (builder s)) (instructions (builder s))
  ∧ Forall (fun timer => issued (instructionIdRef (builder s)) (st_instructions timer))
           (savedTimers (saved s)).

(** ** Vocabulary of the further statements *)

(** Every time instruction of the list lasts at least one second. *)
Definition positiveTimes (l : list Instruction) : Prop :=
  Forall (fun inst => match inst with
                      | ITime t => 0 < ti_time t
                      | IRepeat _ _ => True
                      end) l.

(** The ticks a run of these durations takes: a step of [d] seconds is
    counted down by [d] ticks (none when [d] is not positive) and left by one
    more. *)
Fixpoint ticksFor (durs : list Z) : nat :=
  match durs with
  | [] => 0%nat
  | d :: rest => (S (Z.to_nat d) + ticksFor rest)%nat
  end.


(** What the prompt of [editInstruction] proposes (lines 86-87 and 96):
    the formatted time, or the count printed by [toString]. *)
Definition promptDefault (inst : Instruction) : string :=
  match inst with
  | ITime t => formatTime (ti_time t)
  | IRepeat _ times => string_of_list_ascii (JS.toStringL times)
  end.

Definition savedIds (l : list SavedTimer) : list nat := map st_id l.

(** A program runs on interval [h] over [seq], at index [i] with [c]
    seconds left, after [p] notifications. *)
Definition runningAt (s : Home) (h : nat) (seq : list TimeInstruction)
    (i : nat) (c : Z) (p : nat) : Prop :=
  consistent s
  ∧ programIntervalRef (execution s) = Some h
  ∧ flattenedSequence (execution s) = seq
  ∧ observe s = ((i, c), true, p).

(** ** Sessions on which the integers are the doubles *)

(** The handlers keep durations, counts and the countdown as exact
    integers.  They are the page's on every session in which what is typed
    or answered is read without rounding: the double version of
    [parseTimeInput] gives the integer the handlers use, below [2^53], and
    so does [parseInt] for counts. *)
Definition exactTime (str : string) : Prop :=
  match parseTimeInput str with
  | Some n => safe n ∧ Binary64.parseTimeInput str = Some (Binary64.Int n)
  | None => True
  end.

Definition exactCount (str : string) (radix : Z) : Prop :=
  match JS.parseInt str radix with
  | Some n => safe n
  | None => True
  end.

Definition exactReply (reply : option string) : Prop :=
  match reply with
  | Some str => exactTime str ∧ exactCount str 10
  | None => True
  end.

Definition exactEvent (s : Home) (ev : Event) : Prop :=
  match ev with
  | AddTimeInstruction => exactTime (timeInput (builder s))
  | RepeatInputChange value => exactCount value 0
  | EditInstruction _ replies => Forall exactReply replies
  | EditCurrentInstruction reply => exactReply reply
  | _ => True
  end.

(** Every event of a list is offered by the page and read exactly when its
    turn comes. *)
Fixpoint offeredExactly (s : Home) (evs : list Event) : Prop :=
  match evs with
  | [] => True
  | ev :: rest => (enabled s ev ∧ exactEvent s ev) ∧ offeredExactly (handle ev s) rest
  end.

Inductive reachableExactly (stored : option (list SavedTimer)) : Home → Prop :=
| exactly_mount : reachableExactly stored (mount stored)
| exactly_handle s ev :
    reachableExactly stored s → enabled s ev → exactEvent s ev →
    reachableExactly stored (handle ev s).

(** Every time instruction of the list lasts at least one second and less
    than [2^53]. *)
Definition safeTimes (l : list Instruction) : Prop :=
  Forall (fun inst => match inst with
                      | ITime t => 0 < ti_time t < 2 ^ 53
                      | IRepeat _ _ => True
                      end) l.

(** This holds of the list being built, of the saved timers and of the flat
    sequence; and the countdown is between [0] and [2^53]. *)
Definition safeRun (s : Home) : Prop :=
  safeTimes (instructions (builder s))
  ∧ Forall (fun timer => safeTimes (st_instructions timer)) (savedTimers (saved s))
  ∧ Forall (fun t => 0 < ti_time t < 2 ^ 53) (flattenedSequence (execution s))
  ∧ 0 ≤ countdown (programState (execution s)) < 2 ^ 53.

(** What the edit prompt proposes is what the page prints for the payload,
    and the page reads it back as the payload, in doubles. *)
Definition proposedExactly (inst : Instruction) : Prop :=
  match inst with
  | ITime t =>
      Binary64.formatTime (Binary64.Int (ti_time t)) = Some (promptDefault inst)
      ∧ Binary64.parseTimeInput (promptDefault inst) = Some (Binary64.Int (ti_time t))
  | IRepeat _ times =>
      Binary64.toStringL (Binary64.Int times)
      = Some (list_ascii_of_string (promptDefault inst))
      ∧ Binary64.parseIntL (list_ascii_of_string (promptDefault inst)) 10
        = Binary64.Int times
  end.

(** * Properties *)

(** ** The expander *)

Section Expander.

Implicit Types (instrs : list Instruction) (flattened copy : list TimeInstruction).

Lemma pushCopies_copies n copy flattened :
  pushCopies n copy flattened = flattened ++ copies n copy.
Proof.
  revert flattened; induction n as [|n IH]; intros flattened; simpl.
  - by rewrite app_nil_r.
  - by rewrite IH, <- app_assoc.
Qed.

Lemma flatten_snoc instrs inst :
  flattenInstructionsEntire (instrs ++ [inst])
  = flattenStep (flattenInstructionsEntire instrs) inst.
Proof. unfold flattenInstructionsEntire. by rewrite fold_left_app. Qed.

Lemma flatten_snoc_time instrs t :
  flattenInstructionsEntire (instrs ++ [ITime t]) = flattenInstructionsEntire instrs ++ [t].
Proof. by rewrite flatten_snoc. Qed.

Lemma flatten_snoc_repeat instrs id times :
  flattenInstructionsEntire (instrs ++ [IRepeat id times])
  = flattenInstructionsEntire instrs
    ++ copies (Z.to_nat times) (flattenInstructionsEntire instrs).
Proof. rewrite flatten_snoc. simpl. apply pushCopies_copies. Qed.

Lemma imap_instructionOf_snoc steps st :
  imap instructionOf (steps ++ [st])
  = imap instructionOf steps ++ [instructionOf (length steps) st].
Proof. rewrite imap_app. simpl. by rewrite Nat.add_0_r. Qed.

Lemma durations_copies n flattened :
  durations (copies n flattened) = copies n (durations flattened).
Proof.
  unfold durations. induction n as [|n IH]; simpl; [done|].
  by rewrite map_app, IH.
Qed.

Lemma flattenStep_elem flattened inst t :
  t ∈ flattenStep flattened inst → t ∈ flattened ∨ inst = ITime t.
Proof.
  destruct inst as [t'|id times]; simpl.
  - rewrite elem_of_app, list_elem_of_singleton. intros [?|E]; [|subst t']; auto.
  - rewrite pushCopies_copies, elem_of_app. intros [?|Hc]; [by left|left].
    induction (Z.to_nat times) as [|n IH]; simpl in Hc.
    + by apply elem_of_nil in Hc.
    + apply elem_of_app in Hc as [?|?]; auto.
Qed.

Lemma flatten_elem instrs t :
  t ∈ flattenInstructionsEntire instrs → ITime t ∈ instrs.
Proof.
  induction instrs as [|inst instrs IH] using rev_ind.
  - intros H. by apply elem_of_nil in H.
  - rewrite flatten_snoc. intros H.
    apply flattenStep_elem in H as [H|E]; [|subst inst]; set_solver.
Qed.

End Expander.

(** C1: the expander handles the instructions in order: a [Wait d] puts [d]
    at the end of what was expanded so far, a [Repeat k] puts [k] copies of
    what was expanded so far at its end; [Wait 5, Repeat 2, Wait 3] expands
    to [5,5,5,3] and [Wait 2, Wait 3, Repeat 1] to [2,3,2,3]. *)
Theorem expand_in_order :
  (∀ steps d, expand (steps ++ [Wait d]) = expand steps ++ [d])
  ∧ (∀ steps k, expand (steps ++ [Repeat k])
                = expand steps ++ copies (Z.to_nat k) (expand steps))
  ∧ expand [Wait 5; Repeat 2; Wait 3] = [5; 5; 5; 3]
  ∧ expand [Wait 2; Wait 3; Repeat 1] = [2; 3; 2; 3].
Proof.
  repeat split; try reflexivity.
  - intros steps d. unfold expand.
    rewrite imap_instructionOf_snoc. simpl.
    rewrite flatten_snoc_time. unfold durations. by rewrite map_app.
  - intros steps k. unfold expand.
    rewrite imap_instructionOf_snoc. simpl.
    rewrite flatten_snoc_repeat. unfold durations at 1.
    rewrite map_app. fold (durations (copies (Z.to_nat k)
      (flattenInstructionsEntire (imap instructionOf steps)))).
    by rewrite durations_copies.
Qed.

(** ** Decimal numerals: printing and reading *)

Section Numerals.

Implicit Types (c : ascii) (f : list ascii) (n : Z).

Lemma codeUnit_digitChar d : 0 ≤ d < 10 → JS.codeUnit (JS.digitChar d) = 48 + d.
Proof.
  intros Hd. unfold JS.codeUnit, JS.digitChar.
  rewrite nat_ascii_embedding by lia. lia.
Qed.

Lemma isDigit_digitChar d : 0 ≤ d < 10 → isDigit (JS.digitChar d) = true.
Proof. intros Hd. unfold isDigit. rewrite codeUnit_digitChar by done. lia. Qed.

Lemma radixDigit_isDigit c :
  JS.radixDigit 10 c = if isDigit c then Some (JS.codeUnit c - 48) else None.
Proof.
  unfold JS.radixDigit, JS.digitValue, isDigit.
  destruct ((48 <=? JS.codeUnit c) && (JS.codeUnit c <=? 57)) eqn:E1.
  - destruct (JS.codeUnit c - 48 <? 10) eqn:E2; [done|lia].
  - destruct ((97 <=? JS.codeUnit c) && (JS.codeUnit c <=? 122)) eqn:E2.
    + destruct (JS.codeUnit c - 87 <? 10) eqn:E3; [lia|done].
    + destruct ((65 <=? JS.codeUnit c) && (JS.codeUnit c <=? 90)) eqn:E3; [|done].
      destruct (JS.codeUnit c - 55 <? 10) eqn:E4; [lia|done].
Qed.

Lemma isDigit_not_space c : isDigit c = true → JS.isWhiteSpace c = false.
Proof. unfold isDigit, JS.isWhiteSpace. lia. Qed.

Lemma isDigit_not_sign c :
  isDigit c = true → (JS.codeUnit c =? 43) || (JS.codeUnit c =? 45) = false.
Proof. unfold isDigit. lia. Qed.

Lemma isDigit_not_colon c : isDigit c = true → Ascii.eqb c colon = false.
Proof.
  intros Hc. apply Ascii.eqb_neq. intros ->. by vm_compute in Hc.
Qed.

Lemma readDigits_seen R f acc : is_Some (JS.readDigits R f true acc).
Proof.
  revert acc; induction f as [|c f IH]; intros acc; simpl; [by eexists|].
  destruct (JS.radixDigit R c); [apply IH | by eexists].
Qed.

Lemma readDigits_numeral f seen acc :
  forallb isDigit f = true →
  JS.readDigits 10 f seen acc
  = if seen || negb (Nat.eqb (length f) 0)
    then Some (fold_left (fun a c => a * 10 + (JS.codeUnit c - 48)) f acc)
    else None.
Proof.
  revert seen acc; induction f as [|c f IH]; intros seen acc Hf; simpl in *.
  - by rewrite orb_false_r.
  - apply andb_true_iff in Hf as [Hc Hf].
    rewrite radixDigit_isDigit, Hc, IH by done.
    by rewrite orb_true_r.
Qed.

(** [parseInt(s, 10)]: no prefix is stripped and the radix is 10. *)
Lemma parseIntL_10 s :
  JS.parseIntL s 10
  = match JS.readDigits 10
            (match JS.trimStart s with
             | c :: rest =>
                 if (JS.codeUnit c =? 43) || (JS.codeUnit c =? 45)
                 then rest else JS.trimStart s
             | [] => JS.trimStart s
             end) false 0 with
    | Some mathInt =>
        Some (match JS.trimStart s with
              | c :: _ => if JS.codeUnit c =? 45 then -1 else 1
              | [] => 1
              end * mathInt)
    | None => None
    end.
Proof. reflexivity. Qed.

Lemma parseIntL_numeral f :
  numeral f = true → JS.parseIntL f 10 = Some (numeralValue f).
Proof.
  destruct f as [|c f]; [done|]. unfold numeral. intros Hf.
  pose proof Hf as Hall. simpl in Hf. apply andb_true_iff in Hf as [Hc _].
  rewrite parseIntL_10. simpl JS.trimStart.
  rewrite (isDigit_not_space c Hc), (isDigit_not_sign c Hc).
  replace (JS.codeUnit c =? 45) with false by (unfold isDigit in Hc; lia).
  rewrite readDigits_numeral by done. simpl length. simpl orb.
  unfold numeralValue. f_equal. lia.
Qed.

Lemma parseIntL_readable f : JS.parseIntL f 10 = None ↔ readable f = false.
Proof.
  rewrite parseIntL_10. unfold readable.
  destruct (JS.trimStart f) as [|c rest]; [done|].
  destruct ((JS.codeUnit c =? 43) || (JS.codeUnit c =? 45)).
  - destruct rest as [|d rest]; simpl; [done|].
    rewrite radixDigit_isDigit. destruct (isDigit d); [|done].
    destruct (readDigits_seen 10 rest (0 * 10 + (JS.codeUnit d - 48))) as [x ->].
    split; intros; discriminate.
  - simpl. rewrite radixDigit_isDigit. destruct (isDigit c); [|done].
    destruct (readDigits_seen 10 rest (0 * 10 + (JS.codeUnit c - 48))) as [x ->].
    split; intros; discriminate.
Qed.

Lemma numeralValue_snoc f c :
  numeralValue (f ++ [c]) = numeralValue f * 10 + (JS.codeUnit c - 48).
Proof. unfold numeralValue. by rewrite fold_left_app. Qed.

Lemma digitsOf_acc fuel n acc :
  JS.digitsOf fuel n acc = JS.digitsOf fuel n [] ++ acc.
Proof.
  revert n acc; induction fuel as [|fuel IH]; intros n acc; simpl; [done|].
  destruct (n <? 10); [done|].
  rewrite (IH _ (_ :: acc)), (IH _ [_]). by rewrite <- app_assoc.
Qed.

Lemma digitsOf_numeral fuel n :
  0 ≤ n < 2 ^ Z.of_nat fuel → (0 < fuel)%nat →
  numeral (JS.digitsOf fuel n []) = true ∧ numeralValue (JS.digitsOf fuel n []) = n.
Proof.
  revert n; induction fuel as [|fuel IH]; intros n Hn Hfuel; [lia|].
  simpl JS.digitsOf. destruct (n <? 10) eqn:E.
  - assert (n mod 10 = n) as -> by (apply Z.mod_small; lia).
    split.
    + simpl. rewrite isDigit_digitChar by lia. done.
    + unfold numeralValue. simpl. rewrite codeUnit_digitChar by lia. lia.
  - assert (0 ≤ n / 10 < 2 ^ Z.of_nat fuel ∧ 1 ≤ n / 10) as [Hq Hq1].
    { rewrite Nat2Z.inj_succ, Z.pow_succ_r in Hn by lia.
      split; [split|]; [apply Z.div_pos; lia| |apply Z.div_le_lower_bound; lia].
      apply Z.div_lt_upper_bound; lia. }
    assert (0 < fuel)%nat as Hf.
    { destruct fuel; [simpl in Hq; lia | lia]. }
    destruct (IH _ Hq Hf) as [Hnum Hval].
    rewrite digitsOf_acc. split.
    + unfold numeral in *. destruct (JS.digitsOf fuel (n / 10) []) as [|c f] eqn:Ed; [done|].
      change (forallb isDigit ((c :: f) ++ [JS.digitChar (n mod 10)]) = true).
      rewrite forallb_app, Hnum. simpl.
      rewrite isDigit_digitChar; [done|]. apply Z.mod_pos_bound; lia.
    + rewrite numeralValue_snoc, Hval, codeUnit_digitChar
        by (apply Z.mod_pos_bound; lia).
      pose proof (Z.div_mod n 10). lia.
Qed.

Lemma toStringL_numeral n :
  0 ≤ n → numeral (JS.toStringL n) = true ∧ numeralValue (JS.toStringL n) = n.
Proof.
  intros Hn. unfold JS.toStringL.
  replace (n <? 0) with false by lia.
  apply digitsOf_numeral; [|lia].
  rewrite Nat2Z.inj_succ, Z2Nat.id by apply Z.log2_nonneg.
  destruct (Z.eq_dec n 0) as [->|Hne]; [done|].
  pose proof (Z.log2_spec n). lia.
Qed.

Lemma numeral_zero_cons f : numeral f = true → numeral ("0"%char :: f) = true.
Proof. destruct f; [done|]. unfold numeral. intros H. simpl in *. done. Qed.

Lemma numeralValue_zero_cons f : numeralValue ("0"%char :: f) = numeralValue f.
Proof. done. Qed.

Lemma pad2_numeral n :
  0 ≤ n → numeral (pad2 n) = true ∧ numeralValue (pad2 n) = n.
Proof.
  intros Hn. destruct (toStringL_numeral n Hn) as [Hnum Hval].
  unfold pad2, JS.padStartL.
  destruct (JS.toStringL n) as [|c0 [|c1 f]] eqn:E; [done| |];
    simpl replicate; simpl app.
  - split; [by apply numeral_zero_cons | by rewrite numeralValue_zero_cons].
  - done.
Qed.

End Numerals.

(** ** [formatTime] and [parseTimeInput] *)

Section TimeStrings.

Implicit Types (f input : list ascii) (ns : list Z).

Lemma numeral_forallb f : numeral f = true → forallb isDigit f = true.
Proof. by destruct f. Qed.

Lemma splitL_length input : (1 ≤ length (JS.splitL colon input))%nat.
Proof.
  induction input as [|c input IH]; simpl; [lia|].
  destruct (Ascii.eqb c colon); simpl; [lia|].
  destruct (JS.splitL colon input); simpl; lia.
Qed.

Lemma splitL_digits f : forallb isDigit f = true → JS.splitL colon f = [f].
Proof.
  induction f as [|c f IH]; simpl; [done|].
  intros [Hc Hf]%andb_true_iff.
  by rewrite (isDigit_not_colon c Hc), IH.
Qed.

Lemma splitL_digits_colon f input :
  forallb isDigit f = true →
  JS.splitL colon (f ++ colon :: input) = f :: JS.splitL colon input.
Proof.
  induction f as [|c f IH]; simpl; [done|].
  intros [Hc Hf]%andb_true_iff.
  by rewrite (isDigit_not_colon c Hc), IH.
Qed.

Lemma someNaN_map_Some ns : someNaN (map Some ns) = false.
Proof. unfold someNaN. induction ns; simpl; done. Qed.

Lemma someNaN_false parts : someNaN parts = false → ∃ ns, parts = map Some ns.
Proof.
  unfold someNaN. induction parts as [|[n|] parts IH]; simpl; intros H.
  - by exists [].
  - destruct (IH H) as [ns ->]. by exists (n :: ns).
  - done.
Qed.

Lemma someNaN_unreadable (fields : list (list ascii)) :
  someNaN (map (fun s => JS.parseIntL s 10) fields) = true
  ↔ Exists (fun f => readable f = false) fields.
Proof.
  unfold someNaN. induction fields as [|f fields IH]; simpl.
  - split; [done|]. intros H; inversion H.
  - rewrite Exists_cons, <- IH, <- parseIntL_readable.
    destruct (JS.parseIntL f 10); simpl;
      [split; [auto | intros [?|?]; done] | split; auto].
Qed.

Lemma parseTimeInputL_parts input ns :
  map (fun s => JS.parseIntL s 10) (JS.splitL colon input) = map Some ns →
  parseTimeInputL input
  = match ns with
    | [hrs; mins; secs] => Some (hrs * 3600 + mins * 60 + secs)
    | [mins; secs] => Some (mins * 60 + secs)
    | [secs] => Some secs
    | _ => None
    end.
Proof.
  intros H. unfold parseTimeInputL. rewrite H, someNaN_map_Some.
  by destruct ns as [|a [|b [|c [|d ns]]]].
Qed.

Lemma parseTimeInputL_None input :
  parseTimeInputL input = None
  ↔ (3 < length (JS.splitL colon input))%nat
    ∨ Exists (fun f => readable f = false) (JS.splitL colon input).
Proof.
  pose proof (splitL_length input) as Hlen.
  rewrite <- someNaN_unreadable.
  destruct (someNaN (map (fun s => JS.parseIntL s 10) (JS.splitL colon input))) eqn:E.
  - unfold parseTimeInputL. rewrite E. naive_solver.
  - destruct (someNaN_false _ E) as [ns Hns].
    rewrite (parseTimeInputL_parts _ _ Hns).
    assert (length (JS.splitL colon input) = length ns) as Hl.
    { pose proof (f_equal length Hns) as Hl. by rewrite !length_map in Hl. }
    rewrite Hl in *.
    destruct ns as [|a [|b [|c [|d ns]]]]; simpl in *;
      split; try done; try lia; intros [?|?]; done || lia.
Qed.

Lemma parseTimeInputL_numerals input :
  Forall (fun f => numeral f = true) (JS.splitL colon input) →
  (length (JS.splitL colon input) ≤ 3)%nat →
  parseTimeInputL input = Some (seconds (map numeralValue (JS.splitL colon input))).
Proof.
  intros Hall.
  assert (map (fun s => JS.parseIntL s 10) (JS.splitL colon input)
          = map Some (map numeralValue (JS.splitL colon input))) as Hparts.
  { induction Hall as [|f fields Hf _ IH]; simpl; [done|].
    by rewrite (parseIntL_numeral f Hf), IH. }
  intros Hlen. pose proof (splitL_length input) as Hlen1.
  rewrite (parseTimeInputL_parts _ _ Hparts).
  destruct (JS.splitL colon input) as [|a [|b [|c [|d fields]]]];
    simpl in *; try lia; unfold seconds; simpl; f_equal; lia.
Qed.

Lemma formatTimeL_fields t :
  0 ≤ t →
  JS.splitL colon (formatTimeL t)
  = [pad2 (t / 3600); pad2 (Z.rem t 3600 / 60); pad2 (Z.rem t 60)].
Proof.
  intros Ht. unfold formatTimeL.
  assert (0 ≤ t / 3600) as H1 by (apply Z.div_pos; lia).
  assert (0 ≤ Z.rem t 3600 / 60) as H2.
  { apply Z.div_pos; [|lia]. apply Z.rem_nonneg; lia. }
  assert (0 ≤ Z.rem t 60) as H3 by (apply Z.rem_nonneg; lia).
  destruct (pad2_numeral _ H1) as [N1 _], (pad2_numeral _ H2) as [N2 _],
    (pad2_numeral _ H3) as [N3 _].
  rewrite !splitL_digits_colon, splitL_digits by by apply numeral_forallb.
  done.
Qed.

End TimeStrings.

(** ** Doubles and exact integers *)

Section Doubles.

Implicit Types (a d n t : Z) (f input : list ascii).

Lemma ofZ_safe n : safe n → Binary64.ofZ n = Binary64.Int n.
Proof.
  unfold safe, Binary64.ofZ. intros H.
  by replace (Z.abs n <? 2 ^ 53) with true by lia.
Qed.

Lemma ofZ_not_NaN n : Binary64.isNaN (Binary64.ofZ n) = false.
Proof.
  unfold Binary64.ofZ. destruct (Z.abs n <? 2 ^ 53); [done|].
  cbv zeta. destruct (2 ^ 1024 <=? _); [|done]. by destruct (n <? 0).
Qed.

Lemma nearestEven_cases a d :
  0 < d →
  (Binary64.nearestEven a d = a / d ∧ 2 * (a mod d) ≤ d)
  ∨ (Binary64.nearestEven a d = a / d + 1 ∧ d ≤ 2 * (a mod d)).
Proof.
  intros Hd. unfold Binary64.nearestEven. cbv zeta.
  destruct (2 * (a mod d) <? d) eqn:E1; [left; lia|].
  destruct (d <? 2 * (a mod d)) eqn:E2; [right; lia|].
  destruct (Z.even (a / d)); [left|right]; lia.
Qed.

(** Below [2^53] the rounding of the quotient never reaches the next
    integer: [Math.floor(a / d)] is the integer quotient. *)
Lemma divFloor_exact a d : 0 ≤ a < 2 ^ 53 → 0 < d → Binary64.divFloor a d = a / d.
Proof.
  intros Ha Hd. unfold Binary64.divFloor.
  destruct (a =? 0) eqn:E0.
  { apply Z.eqb_eq in E0. subst. by rewrite Z.div_0_l by lia. }
  rewrite Z.abs_eq by lia.
  destruct (a <? d) eqn:E1.
  { replace (a <? 0) with false by lia. symmetry. apply Z.div_small. lia. }
  set (k := a / d).
  assert (1 ≤ k) as Hk1 by (apply Z.div_le_lower_bound; lia).
  assert (k * d ≤ a) as Hkd by (unfold k; pose proof (Z.mul_div_le a d); lia).
  assert (a < (k + 1) * d) as Hkd'.
  { unfold k. pose proof (Z.mod_pos_bound a d Hd). pose proof (Z.div_mod a d). lia. }
  set (e := Z.log2 k).
  assert (0 ≤ e) as He0 by apply Z.log2_nonneg.
  destruct (Z.log2_spec k) as [Hlo Hhi]; [lia|]. fold e in Hlo, Hhi.
  assert (e ≤ 52) as He.
  { assert (k < 2 ^ 53) as Hk53 by nia.
    apply Z.log2_lt_pow2 in Hk53; [fold e in Hk53|]; lia. }
  replace (e <=? 52) with true by lia.
  set (N := 2 ^ (52 - e)).
  assert (0 < N) as HN by (apply Z.pow_pos_nonneg; lia).
  assert (2 ^ e * N = 2 ^ 52) as HPN.
  { unfold N. rewrite <- Z.pow_add_r by lia. f_equal. lia. }
  assert (d < 2 * N) as HdN.
  { assert (2 ^ e * d ≤ a) by nia. change (2 ^ 53) with (2 * 2 ^ 52) in Ha. nia. }
  pose proof (Z.div_mod (a * N) d) as Hdm.
  pose proof (Z.mod_pos_bound (a * N) d Hd) as Hrr.
  destruct (nearestEven_cases (a * N) d Hd) as [[-> Hc]|[-> Hc]].
  - symmetry. apply (Z.div_unique _ _ _ (a * N / d - k * N)); [left; split; nia | lia].
  - symmetry. apply (Z.div_unique _ _ _ (a * N / d + 1 - k * N)); [left; split; nia | lia].
Qed.

Lemma b64_pad2_safe n : safe n → Binary64.pad2 (Binary64.Int n) = Some (pad2 n).
Proof.
  unfold safe, Binary64.pad2, Binary64.toStringL, pad2. intros H.
  by replace (Z.abs n <? 2 ^ 53) with true by lia.
Qed.

Lemma b64_formatTimeL_safe t :
  0 ≤ t < 2 ^ 53 → Binary64.formatTimeL (Binary64.Int t) = Some (formatTimeL t).
Proof.
  intros Ht. unfold Binary64.formatTimeL, formatTimeL. cbv zeta.
  unfold Binary64.floorDiv, Binary64.rem.
  assert (0 ≤ Z.rem t 3600 < 3600) as Hr1 by (apply Z.rem_bound_pos; lia).
  assert (0 ≤ Z.rem t 60 < 60) as Hr2 by (apply Z.rem_bound_pos; lia).
  rewrite (divFloor_exact t 3600), (divFloor_exact (Z.rem t 3600) 60) by lia.
  assert (0 ≤ t / 3600 ≤ t) as Hq1.
  { split; [apply Z.div_pos; lia|]. apply Z.div_le_upper_bound; lia. }
  assert (0 ≤ Z.rem t 3600 / 60 < 3600) as Hq2.
  { split; [apply Z.div_pos; lia|]. apply Z.div_lt_upper_bound; lia. }
  rewrite !b64_pad2_safe by (unfold safe; lia). done.
Qed.

Lemma b64_formatTime_safe t :
  0 ≤ t < 2 ^ 53 → Binary64.formatTime (Binary64.Int t) = Some (formatTime t).
Proof.
  intros Ht. unfold Binary64.formatTime, formatTime. by rewrite b64_formatTimeL_safe.
Qed.

Lemma b64_parts (fields : list (list ascii)) (ns : list Z) :
  map (fun s => JS.parseIntL s 10) fields = map Some ns →
  map (fun s => Binary64.parseIntL s 10) fields = map Binary64.ofZ ns.
Proof.
  revert ns; induction fields as [|f fields IH]; intros [|n ns] H; try done.
  simpl in H. injection H as Hf H. simpl. unfold Binary64.parseIntL at 1.
  rewrite Hf. f_equal. by apply IH.
Qed.

Lemma b64_someNaN (fields : list (list ascii)) :
  existsb Binary64.isNaN (map (fun s => Binary64.parseIntL s 10) fields)
  = someNaN (map (fun s => JS.parseIntL s 10) fields).
Proof.
  unfold someNaN. induction fields as [|f fields IH]; simpl; [done|].
  rewrite IH. f_equal. unfold Binary64.parseIntL.
  destruct (JS.parseIntL f 10); [apply ofZ_not_NaN | done].
Qed.

(** The double version fails exactly when the integer version does. *)
Lemma b64_parse_None input :
  Binary64.parseTimeInputL input = None ↔ parseTimeInputL input = None.
Proof.
  unfold Binary64.parseTimeInputL, parseTimeInputL. cbv zeta. rewrite b64_someNaN.
  destruct (someNaN _) eqn:E; [done|].
  destruct (someNaN_false _ E) as [ns Hns].
  rewrite (b64_parts _ _ Hns), Hns.
  destruct ns as [|a [|b [|c [|x ns]]]]; simpl; split; intros; done.
Qed.

(** When no step of the sum can leave the integers below [2^53], the double
    version computes what the integer version computes. *)
Lemma b64_parse_exact input ns :
  map (fun s => JS.parseIntL s 10) (JS.splitL colon input) = map Some ns →
  (1 ≤ length ns ≤ 3)%nat →
  seconds (map Z.abs ns) < 2 ^ 53 →
  Binary64.parseTimeInputL input = Some (Binary64.Int (seconds ns))
  ∧ parseTimeInputL input = Some (seconds ns).
Proof.
  intros Hns Hlen Hsafe.
  rewrite (parseTimeInputL_parts _ _ Hns).
  unfold Binary64.parseTimeInputL. cbv zeta.
  rewrite b64_someNaN, (b64_parts _ _ Hns), Hns, someNaN_map_Some.
  destruct ns as [|a [|b [|c [|x ns]]]]; simpl in Hlen; try lia;
    unfold seconds in *; simpl in *;
    repeat (first [rewrite ofZ_safe by (unfold safe; lia) | progress simpl]);
    split; repeat f_equal; lia.
Qed.

Lemma fold_digits_nonneg f acc :
  forallb isDigit f = true → 0 ≤ acc →
  0 ≤ fold_left (fun a c => a * 10 + (JS.codeUnit c - 48)) f acc.
Proof.
  revert acc; induction f as [|c f IH]; intros acc Hf Hacc; simpl in *; [done|].
  apply andb_true_iff in Hf as [Hc Hf]. apply IH; [done|].
  unfold isDigit in Hc. lia.
Qed.

Lemma numeralValue_nonneg f : numeral f = true → 0 ≤ numeralValue f.
Proof. intros Hf. apply fold_digits_nonneg; [by apply numeral_forallb | done]. Qed.

Lemma abs_numeralValues (fields : list (list ascii)) :
  Forall (fun f => numeral f = true) fields →
  map Z.abs (map numeralValue fields) = map numeralValue fields.
Proof.
  induction 1 as [|f fields Hf _ IH]; simpl; [done|].
  rewrite IH, Z.abs_eq; [done|]. by apply numeralValue_nonneg.
Qed.

Lemma b64_parse_numerals input :
  Forall (fun f => numeral f = true) (JS.splitL colon input) →
  (length (JS.splitL colon input) ≤ 3)%nat →
  seconds (map numeralValue (JS.splitL colon input)) < 2 ^ 53 →
  Binary64.parseTimeInputL input
  = Some (Binary64.Int (seconds (map numeralValue (JS.splitL colon input)))).
Proof.
  intros Hall Hlen Hsafe.
  assert (map (fun s => JS.parseIntL s 10) (JS.splitL colon input)
          = map Some (map numeralValue (JS.splitL colon input))) as Hparts.
  { clear Hlen Hsafe. induction Hall as [|f fields Hf _ IH]; simpl; [done|].
    by rewrite (parseIntL_numeral f Hf), IH. }
  apply (b64_parse_exact _ _ Hparts).
  - rewrite length_map. pose proof (splitL_length input). lia.
  - by rewrite abs_numeralValues.
Qed.

(** Reading a field: white space, a sign, digits, and whatever follows. *)
Lemma trimStart_space (ws l : list ascii) :
  forallb JS.isWhiteSpace ws = true → JS.trimStart (ws ++ l) = JS.trimStart l.
Proof.
  induction ws as [|c ws IH]; simpl; [done|].
  intros [Hc Hws]%andb_true_iff. rewrite Hc. by apply IH.
Qed.

Lemma readDigits_prefix (digits rest : list ascii) seen acc :
  forallb isDigit digits = true → endsNumeral rest = true →
  JS.readDigits 10 (digits ++ rest) seen acc
  = if seen || negb (Nat.eqb (length digits) 0)
    then Some (fold_left (fun a c => a * 10 + (JS.codeUnit c - 48)) digits acc)
    else None.
Proof.
  revert seen acc; induction digits as [|c digits IH]; intros seen acc Hd Hrest; simpl in *.
  - rewrite orb_false_r. destruct rest as [|c rest]; simpl; [done|].
    rewrite radixDigit_isDigit. simpl in Hrest. by destruct (isDigit c).
  - apply andb_true_iff in Hd as [Hc Hd].
    rewrite radixDigit_isDigit, Hc, IH by done. by rewrite orb_true_r.
Qed.

Lemma parseIntL_field (ws sgn digits rest : list ascii) :
  forallb JS.isWhiteSpace ws = true → isSign sgn = true →
  numeral digits = true → endsNumeral rest = true →
  JS.parseIntL (ws ++ sgn ++ digits ++ rest) 10
  = Some (signValue sgn * numeralValue digits).
Proof.
  intros Hws Hsgn Hnum Hrest. rewrite parseIntL_10, trimStart_space by done.
  pose proof (numeral_forallb _ Hnum) as Hall.
  destruct digits as [|d digits]; [done|].
  simpl in Hall. apply andb_true_iff in Hall as [Hd Hall].
  assert (forallb isDigit (d :: digits) = true) as Hall' by (simpl; by rewrite Hd, Hall).
  destruct sgn as [|c [|c' sgn]]; [| |done]; simpl in Hsgn.
  - simpl app. simpl JS.trimStart.
    rewrite (isDigit_not_space d Hd), (isDigit_not_sign d Hd).
    replace (JS.codeUnit d =? 45) with false by (unfold isDigit in Hd; lia).
    rewrite (readDigits_prefix (d :: digits) rest) by done.
    change (negb (length (d :: digits) =? 0)%nat) with true. done.
  - assert (JS.isWhiteSpace c = false) as Hc by (unfold JS.isWhiteSpace; lia).
    simpl app. simpl JS.trimStart. rewrite Hc, Hsgn.
    rewrite (readDigits_prefix (d :: digits) rest) by done.
    change (negb (length (d :: digits) =? 0)%nat) with true. done.
Qed.

Lemma splitL_noColon (l : list ascii) : noColon l = true → JS.splitL colon l = [l].
Proof.
  unfold noColon. induction l as [|c l IH]; simpl; [done|].
  intros [Hc Hl]%andb_true_iff. apply negb_true_iff in Hc. by rewrite Hc, IH.
Qed.

Lemma noColon_app (l1 l2 : list ascii) :
  noColon (l1 ++ l2) = noColon l1 && noColon l2.
Proof. unfold noColon. apply forallb_app. Qed.

Lemma noColon_space (ws : list ascii) : forallb JS.isWhiteSpace ws = true → noColon ws = true.
Proof.
  unfold noColon. induction ws as [|c ws IH]; simpl; [done|].
  intros [Hc Hws]%andb_true_iff. rewrite IH by done. rewrite andb_true_r.
  apply negb_true_iff, Ascii.eqb_neq. intros ->. by vm_compute in Hc.
Qed.

Lemma noColon_sign (sgn : list ascii) : isSign sgn = true → noColon sgn = true.
Proof.
  destruct sgn as [|c [|c' sgn]]; try done. simpl. intros Hc. rewrite andb_true_r.
  apply negb_true_iff, Ascii.eqb_neq. intros ->. by vm_compute in Hc.
Qed.

Lemma noColon_digits (digits : list ascii) : forallb isDigit digits = true → noColon digits = true.
Proof.
  unfold noColon. induction digits as [|c ds IH]; simpl; [done|].
  intros [Hc Hds]%andb_true_iff. rewrite IH by done.
  by rewrite (isDigit_not_colon c Hc).
Qed.

Lemma b64_parse_field (ws sgn digits rest : list ascii) :
  forallb JS.isWhiteSpace ws = true → isSign sgn = true →
  numeral digits = true → endsNumeral rest = true → noColon rest = true →
  numeralValue digits < 2 ^ 53 →
  Binary64.parseTimeInputL (ws ++ sgn ++ digits ++ rest)
  = Some (Binary64.Int (signValue sgn * numeralValue digits)).
Proof.
  intros Hws Hsgn Hnum Hrest Hcolon Hsafe.
  pose proof (numeralValue_nonneg _ Hnum) as Hpos.
  assert (JS.splitL colon (ws ++ sgn ++ digits ++ rest) = [ws ++ sgn ++ digits ++ rest])
    as Hsplit.
  { apply splitL_noColon. by rewrite !noColon_app, noColon_space, noColon_sign,
      noColon_digits, Hcolon by (done || by apply numeral_forallb). }
  destruct (b64_parse_exact (ws ++ sgn ++ digits ++ rest)
              [signValue sgn * numeralValue digits]) as [H _].
  - rewrite Hsplit. simpl. by rewrite parseIntL_field.
  - simpl. lia.
  - unfold seconds. simpl. unfold signValue.
    destruct sgn as [|c ?]; [lia|]. destruct (JS.codeUnit c =? 45); lia.
  - by rewrite H.
Qed.

Lemma formatTimeL_seconds t :
  0 ≤ t →
  Forall (fun f => numeral f = true) (JS.splitL colon (formatTimeL t))
  ∧ length (JS.splitL colon (formatTimeL t)) = 3%nat
  ∧ seconds (map numeralValue (JS.splitL colon (formatTimeL t))) = t.
Proof.
  intros Ht. rewrite formatTimeL_fields by done.
  assert (0 ≤ t / 3600) as H1 by (apply Z.div_pos; lia).
  assert (0 ≤ Z.rem t 3600 / 60) as H2.
  { apply Z.div_pos; [|lia]. apply Z.rem_nonneg; lia. }
  assert (0 ≤ Z.rem t 60) as H3 by (apply Z.rem_nonneg; lia).
  destruct (pad2_numeral _ H1) as [N1 V1], (pad2_numeral _ H2) as [N2 V2],
    (pad2_numeral _ H3) as [N3 V3].
  split_and!; [by repeat constructor | done |].
  unfold seconds. simpl. rewrite V1, V2, V3.
  rewrite !Z.rem_mod_nonneg by lia.
  assert (t mod 60 = (t mod 3600) mod 60) as ->.
  { rewrite <- (Z.mod_mod_divide t 3600 60); [done|]. by exists 60. }
  pose proof (Z.div_mod t 3600). pose proof (Z.div_mod (t mod 3600) 60). lia.
Qed.

Lemma b64_roundTrip_safe t :
  0 ≤ t < 2 ^ 53 →
  Binary64.formatTime (Binary64.Int t) = Some (formatTime t)
  ∧ Binary64.parseTimeInput (formatTime t) = Some (Binary64.Int t).
Proof.
  intros Ht. split; [by apply b64_formatTime_safe|].
  unfold Binary64.parseTimeInput, formatTime.
  rewrite list_ascii_of_string_of_list_ascii.
  destruct (formatTimeL_seconds t) as (Hnum & Hlen & Hsec); [lia|].
  rewrite b64_parse_numerals; rewrite ?Hsec, ?Hlen; try done; lia.
Qed.

End Doubles.

(** C4, as the code has it: for every integer [0 <= t < 2^53], parsing the
    formatted [t] gives [t] back, in the arithmetic of doubles. *)
Theorem formatTime_roundtrip_safe (t : Z) :
  0 ≤ t < 2 ^ 53 → Binary64.roundTrip (Binary64.Int t) = Some (Binary64.Int t).
Proof.
  intros Ht. unfold Binary64.roundTrip.
  destruct (b64_roundTrip_safe t Ht) as [-> ->]. done.
Qed.

Lemma formatTime_roundtrip_safe_witness :
  0 ≤ 3725 < 2 ^ 53
  ∧ Binary64.roundTrip (Binary64.Int 3725) = Some (Binary64.Int 3725).
Proof.
  assert (0 ≤ 3725 < 2 ^ 53) as H by lia.
  split; [exact H | exact (formatTime_roundtrip_safe 3725 H)].
Defined.

(** The claim C4 as stated fails: [2^55 + 56] is a double, it is formatted
    as [10007999171934:27:04], and the sum that reads this back is rounded
    twice on its way: the result is 8 short. *)
Lemma formatTime_roundtrip_large :
  Binary64.ofZ (2 ^ 55 + 56) = Binary64.Int 36028797018964024
  ∧ Binary64.formatTime (Binary64.Int 36028797018964024)
    = Some "10007999171934:27:04"%string
  ∧ Binary64.roundTrip (Binary64.Int 36028797018964024)
    = Some (Binary64.Int 36028797018964016)
  ∧ ¬ (∀ t : Z, 0 ≤ t →
         Binary64.roundTrip (Binary64.Int t) = Some (Binary64.Int t)).
Proof.
  assert (Binary64.roundTrip (Binary64.Int 36028797018964024)
          = Some (Binary64.Int 36028797018964016)) as E by (vm_compute; reflexivity).
  split_and!; [vm_compute; reflexivity | vm_compute; reflexivity | exact E |].
  intros H. rewrite H in E by lia. injection E as E. lia.
Qed.

(** C5, as the code has it: [parseTimeInput] fails exactly when the input
    has more than three colon-separated fields or some field, after leading
    white space and an optional sign, does not start with a decimal digit.
    An input of one, two or three non-negative integer numerals whose total
    is below [2^53] is read as [SS], [MM:SS] or [HH:MM:SS]; and an input of
    one field made of white space, an optional sign, digits worth less than
    [2^53] and a tail that does not go on with a digit is read as the signed
    value of the digits. *)
Theorem parseTimeInput_reads_fields (input : string) :
  (Binary64.parseTimeInput input = None
   ↔ (3 < length (fieldsOf input))%nat
     ∨ Exists (fun f => readable f = false) (fieldsOf input))
  ∧ (Forall (fun f => numeral f = true) (fieldsOf input) →
     (length (fieldsOf input) ≤ 3)%nat →
     seconds (map numeralValue (fieldsOf input)) < 2 ^ 53 →
     Binary64.parseTimeInput input
     = Some (Binary64.Int (seconds (map numeralValue (fieldsOf input)))))
  ∧ (∀ ws sgn digits rest : list ascii,
       list_ascii_of_string input = ws ++ sgn ++ digits ++ rest →
       forallb JS.isWhiteSpace ws = true → isSign sgn = true →
       numeral digits = true → endsNumeral rest = true → noColon rest = true →
       numeralValue digits < 2 ^ 53 →
       Binary64.parseTimeInput input
       = Some (Binary64.Int (signValue sgn * numeralValue digits))).
Proof.
  split_and!.
  - unfold Binary64.parseTimeInput. rewrite b64_parse_None. apply parseTimeInputL_None.
  - apply b64_parse_numerals.
  - intros ws sgn digits rest E. unfold Binary64.parseTimeInput. rewrite E.
    apply b64_parse_field.
Qed.

Lemma parseTimeInput_reads_fields_witness :
  Binary64.parseTimeInput "1:2:3:4" = None
  ∧ Binary64.parseTimeInput "01:02:05"
    = Some (Binary64.Int (seconds (map numeralValue (fieldsOf "01:02:05"))))
  ∧ Binary64.parseTimeInput " -5x"
    = Some (Binary64.Int (signValue (list_ascii_of_string "-")
                          * numeralValue (list_ascii_of_string "5"))).
Proof.
  split_and!.
  - destruct (parseTimeInput_reads_fields "1:2:3:4") as (H & _ & _).
    apply H. left. vm_compute. lia.
  - destruct (parseTimeInput_reads_fields "01:02:05") as (_ & H & _).
    apply H; [by repeat constructor | vm_compute; lia | by vm_compute].
  - destruct (parseTimeInput_reads_fields " -5x") as (_ & _ & H).
    exact (H (list_ascii_of_string " ") (list_ascii_of_string "-")
             (list_ascii_of_string "5") (list_ascii_of_string "x")
             eq_refl eq_refl eq_refl eq_refl eq_refl eq_refl eq_refl).
Defined.

(** The claim C5 as stated fails: the field [5x] is not a numeral, and the
    input is read as 5 seconds. *)
Lemma parseTimeInput_reads_prefix :
  ¬ (∀ input : string,
       Exists (fun f => numeral f = false) (fieldsOf input) →
       Binary64.parseTimeInput input = None).
Proof.
  intros H. specialize (H "5x"%string).
  assert (Binary64.parseTimeInput "5x" = Some (Binary64.Int 5)) as E by reflexivity.
  rewrite H in E; [discriminate|].
  apply Exists_cons_hd. reflexivity.
Qed.

(** ** The runner and the interval table *)

Section Runner.

Implicit Types (s : Home) (ev : Event) (h : nat).

Lemma consistent_mount stored : consistent (mount stored).
Proof. unfold consistent; simpl. repeat split; (lia || done). Qed.

(** A handler that leaves the execution hooks and the browser alone is
    followed by the save effect only. *)
Lemma handle_frame ev s :
  execution (update ev s) = execution s →
  browser (update ev s) = browser s →
  handle ev s = saveEffect (update ev s).
Proof.
  intros He Hw. unfold handle, render, countdownDepsChanged.
  by rewrite He, Bool.eqb_reflx, Nat.eqb_refl.
Qed.

Lemma consistent_frame s s' :
  consistent s →
  execution s' = execution s →
  timers (browser s') = timers (browser s) →
  nextTimer (browser s') = nextTimer (browser s) →
  consistent (saveEffect s').
Proof.
  unfold consistent, saveEffect; simpl.
  intros (Hnt & Href & _ & Hrun) -> -> ->. done.
Qed.

Lemma quiet_frame ev s :
  quiet ev = true →
  execution (update ev s) = execution s ∧ browser (update ev s) = browser s.
Proof.
  destruct ev; try discriminate; intros _; simpl; try done.
  - unfold addTimeInstruction.
    destruct (parseTimeInput _) as [n|]; [destruct (n <=? 0)|]; done.
  - unfold addRepeatInstruction. by destruct (negb _).
  - unfold editInstruction. by destruct (editingRef _).
  - unfold saveOrUpdateTimer.
    destruct (_ || _); [done|]. by destruct (loadedTimerId _).
  - unfold editSavedTimer. destruct reply; [destruct (JS.truthy _)|]; done.
Qed.

Lemma delete_ref_timers h (seq : list TimeInstruction) :
  delete h ({[h := seq]} : gmap nat (list TimeInstruction)) = ∅.
Proof. apply delete_singleton_eq. Qed.

Lemma eqb_succ n : Nat.eqb n (S n) = false.
Proof. apply Nat.eqb_neq. lia. Qed.

Lemma positive_handle h : (0 < h)%nat → Nat.eqb h 0 = false.
Proof. intros. apply Nat.eqb_neq. lia. Qed.

Ltac open_state s :=
  destruct s as [b [seq arr [i c] r ref] v [tm nt plays ls]];
  unfold consistent in *; simpl in *.

Ltac live_interval H :=
  destruct H as (Hi & h0 & Eref & Etm); subst.

Lemma consistent_start s : consistent s → consistent (handle StartProgram s).
Proof.
  intros Hs.
  destruct (flattenInstructionsEntire (instructions (builder s))) as [|first rest] eqn:E.
  - assert (update StartProgram s = s) as Hu by (simpl; unfold startProgram; by rewrite E).
    rewrite handle_frame; rewrite Hu; try done. by apply consistent_frame with s.
  - unfold handle, update, startProgram, render, countdownDepsChanged. rewrite E.
    open_state s. destruct Hs as (Hnt & Href & Hls & Hrun).
    rewrite eqb_succ, orb_true_r. simpl.
    unfold countdownCleanup, clearProgramInterval; simpl.
    assert (∀ h, ref = Some h → delete h tm = ∅) as Hdel.
    { intros h ->. destruct r; [live_interval Hrun|subst tm].
      - injection Eref as <-. apply delete_ref_timers.
      - apply delete_empty. }
    destruct ref as [h|]; simpl.
    + rewrite positive_handle by (apply (Href h); done).
      unfold consistent; simpl. rewrite (Hdel h) by done.
      split_and!; try done; try lia.
      * intros ? [= <-]. lia.
      * exists nt. by rewrite insert_empty.
    + unfold consistent; simpl.
      assert (tm = ∅) as -> by (destruct r; [by live_interval Hrun|done]).
      split_and!; try done; try lia.
      * intros ? [= <-]. lia.
      * exists nt. by rewrite insert_empty.
Qed.

Lemma consistent_stop s : consistent s → consistent (handle StopProgram s).
Proof.
  intros Hs. unfold handle, update, stopProgram, render, countdownDepsChanged.
  open_state s. destruct Hs as (Hnt & Href & Hls & Hrun).
  unfold clearProgramInterval; simpl.
  destruct r; simpl.
  - live_interval Hrun. rewrite positive_handle by (apply (Href h0); done).
    simpl. unfold countdownCleanup, clearProgramInterval; simpl.
    rewrite positive_handle by (apply (Href h0); done).
    unfold consistent; simpl. rewrite delete_ref_timers, delete_empty. done.
  - subst tm. destruct ref as [h|]; simpl.
    + rewrite positive_handle by (apply (Href h); done).
      simpl. rewrite Nat.eqb_refl. simpl.
      unfold consistent; simpl. by rewrite delete_empty.
    + rewrite Nat.eqb_refl. simpl. unfold consistent; simpl. done.
Qed.

Lemma consistent_edit reply s :
  consistent s → consistent (handle (EditCurrentInstruction reply) s).
Proof.
  intros Hs.
  assert (∀ s', s' = s → consistent (handle (EditCurrentInstruction reply) s)
                ∨ update (EditCurrentInstruction reply) s = s') as Hcase; cycle 1.
  { destruct (Hcase s eq_refl) as [?|Hu]; [done|].
    rewrite handle_frame; rewrite Hu; try done. by apply consistent_frame with s. }
  intros s' ->. unfold handle at 1. simpl update.
  unfold editCurrentInstruction.
  destruct (negb (isProgramRunning (execution s))) eqn:Er; [by right|].
  destruct (flattenedSequence (execution s) !! index (programState (execution s)))
    as [cur|] eqn:Ec; [|by right].
  destruct reply as [str|]; [|by right].
  destruct (JS.truthy (Some str)); [|by right].
  destruct (parseTimeInput str) as [n|]; [|by right].
  destruct (0 <? n); [|by right].
  left. simpl default. unfold render, countdownDepsChanged.
  open_state s. destruct Hs as (Hnt & Href & Hls & Hrun).
  destruct r; [|done]. live_interval Hrun.
  rewrite Bool.eqb_reflx, eqb_succ. simpl.
  unfold countdownCleanup, clearProgramInterval; simpl.
  rewrite positive_handle by (apply (Href h0); done).
  unfold consistent; simpl. rewrite delete_ref_timers, insert_empty, length_insert.
  split_and!; try done; try lia; [|by exists nt].
  intros ? [= <-]. lia.
Qed.

Lemma consistent_tick h s : consistent s → consistent (handle (Tick h) s).
Proof.
  intros Hs.
  destruct (timers (browser s) !! h) as [sequence|] eqn:El; cycle 1.
  { assert (update (Tick h) s = s) as Hu by (simpl; by rewrite El).
    rewrite handle_frame; rewrite Hu; try done. by apply consistent_frame with s. }
  unfold handle, update. rewrite El.
  unfold intervalCallback, render, countdownDepsChanged.
  open_state s. destruct Hs as (Hnt & Href & Hls & Hrun).
  destruct r; [|by subst tm]. live_interval Hrun.
  apply lookup_singleton_Some in El as [<- <-].
  destruct (0 <? c); simpl.
  - rewrite Nat.eqb_refl. simpl. unfold consistent; simpl.
    split_and!; try done. by exists h0.
  - destruct (seq !! S i) as [next|] eqn:En; simpl.
    + rewrite Nat.eqb_refl. simpl. unfold consistent; simpl.
      split_and!; try done; [|by exists h0].
      by apply lookup_lt_Some in En.
    + unfold countdownCleanup, clearProgramInterval; simpl.
      rewrite positive_handle by (apply (Href h0); done).
      unfold consistent; simpl. by rewrite delete_ref_timers.
Qed.

Lemma consistent_handle ev s : consistent s → consistent (handle ev s).
Proof.
  intros Hs. destruct (quiet ev) eqn:Eq.
  - destruct (quiet_frame ev s Eq) as [He Hw].
    rewrite handle_frame by done.
    apply consistent_frame with s; [done|done|by rewrite Hw..].
  - destruct ev; try discriminate.
    + by apply consistent_start.
    + by apply consistent_stop.
    + by apply consistent_edit.
    + by apply consistent_tick.
Qed.

Lemma reachable_consistent stored s : reachable stored s → consistent s.
Proof.
  induction 1 as [|s ev _ IH _]; [apply consistent_mount|].
  by apply consistent_handle.
Qed.

End Runner.

Section Steps.

Implicit Types (s : Home) (ev : Event) (h : nat).



Lemma reachable_run stored evs s :
  reachable stored s → enabledAll s evs → reachable stored (run evs s).
Proof.
  revert s; induction evs as [|ev evs IH]; intros s Hs Hen; [done|].
  destruct Hen as [Hev Hen]. apply IH; [|done]. by constructor.
Qed.

(** With no program running no interval is live, and a tick changes
    nothing at all. *)
Lemma idle_tick s h : consistent s → running s = false → handle (Tick h) s = s.
Proof.
  intros (_ & _ & Hls & Hrun) Hr. unfold running in Hr. rewrite Hr in Hrun.
  assert (update (Tick h) s = s) as Hu.
  { simpl. by rewrite Hrun, lookup_empty. }
  rewrite handle_frame; rewrite Hu; try done.
  destruct s as [b e v [tm nt plays ls]]; simpl in *. by subst ls.
Qed.

Lemma idle_ticks s hs :
  consistent s → running s = false → run (map Tick hs) s = s.
Proof.
  intros Hs Hr. induction hs as [|h hs IH]; [done|].
  simpl. unfold run in IH. simpl. by rewrite idle_tick.
Qed.

Lemma stop_not_running s : running (handle StopProgram s) = false.
Proof.
  unfold handle, update, stopProgram, render, clearProgramInterval, running.
  destruct s as [b [seq arr [i c] r ref] v [tm nt plays ls]]; simpl.
  destruct ref as [h|]; [destruct (Nat.eqb h 0)|]; simpl;
    destruct (countdownDepsChanged _ _); simpl;
    unfold countdownCleanup, clearProgramInterval; simpl;
    try destruct (Nat.eqb h 0); done.
Qed.

(** What [startProgram] and the render after it leave behind when the
    instruction list expands to a non-empty sequence. *)
Lemma start_spec s first rest :
  flattenInstructionsEntire (instructions (builder s)) = first :: rest →
  observe (handle StartProgram s) = ((0%nat, ti_time first), true, audioPlays (browser s))
  ∧ flattenedSequence (execution (handle StartProgram s)) = first :: rest
  ∧ programIntervalRef (execution (handle StartProgram s)) = Some (nextTimer (browser s))
  ∧ builder (handle StartProgram s) = builder s
  ∧ saved (handle StartProgram s) = saved s.
Proof.
  intros E. unfold handle, update, startProgram, render, countdownDepsChanged.
  rewrite E. destruct s as [b [seq arr [i c] r ref] v [tm nt plays ls]]; simpl.
  rewrite eqb_succ, orb_true_r.
  unfold countdownCleanup, clearProgramInterval; simpl.
  destruct ref as [h|]; [destruct (Nat.eqb h 0)|]; done.
Qed.

(** One tick of the live interval, as seen from outside. *)
Lemma tick_spec s h :
  consistent s → running s = true →
  programIntervalRef (execution s) = Some h →
  let i := index (programState (execution s)) in
  let c := countdown (programState (execution s)) in
  let plays := audioPlays (browser s) in
  flattenedSequence (execution (handle (Tick h) s)) = flattenedSequence (execution s)
  ∧ programIntervalRef (execution (handle (Tick h) s)) = Some h
  ∧ observe (handle (Tick h) s)
    = if 0 <? c then ((i, c - 1), true, plays)
      else match flattenedSequence (execution s) !! S i with
           | Some next => ((S i, ti_time next), true, S plays)
           | None => ((i, c), false, S plays)
           end.
Proof.
  intros (Hnt & Href & Hls & Hrun) Hr Eh. unfold running in Hr.
  rewrite Hr in Hrun. destruct Hrun as (Hi & h0 & Eref & Etm).
  assert (h0 = h) as -> by congruence.
  unfold handle, update. rewrite Etm, lookup_singleton_eq.
  unfold intervalCallback, render, countdownDepsChanged, observe, runState, running.
  destruct s as [b [seq arr [i c] r ref] v [tm nt plays ls]]; simpl in *. subst.
  destruct (0 <? c); simpl.
  - by rewrite Nat.eqb_refl.
  - destruct (seq !! S i) as [next|]; simpl.
    + by rewrite Nat.eqb_refl.
    + unfold countdownCleanup, clearProgramInterval; simpl.
      by destruct (Nat.eqb h 0).
Qed.

End Steps.

(** C3: once [stopProgram] has run, or a tick has finished the program, no
    interval is live: whatever ticks are still attempted, none is delivered
    and the state, run state included, stays as it is. *)
Theorem no_tick_after_stop_or_finish stored (s : Home) :
  reachable stored s →
  (timers (browser (handle StopProgram s)) = ∅
   ∧ ∀ hs, run (map Tick hs) (handle StopProgram s) = handle StopProgram s)
  ∧ (∀ h, running s = true → running (handle (Tick h) s) = false →
       timers (browser (handle (Tick h) s)) = ∅
       ∧ ∀ hs, run (map Tick hs) (handle (Tick h) s) = handle (Tick h) s).
Proof.
  intros Hs. apply reachable_consistent in Hs.
  assert (∀ s', consistent s' → running s' = false →
                timers (browser s') = ∅ ∧ ∀ hs, run (map Tick hs) s' = s') as Hidle.
  { intros s' Hs' Hr. split; [|intros hs; by apply idle_ticks].
    destruct Hs' as (_ & _ & _ & Hrun). unfold running in Hr. by rewrite Hr in Hrun. }
  split.
  - apply Hidle; [by apply consistent_handle | apply stop_not_running].
  - intros h _ Hfin. apply Hidle; [by apply consistent_handle | done].
Qed.

(** Every event of a concrete session is checked by evaluation. *)
Ltac offered :=
  cbv [enabledAll enabled]; split_and!;
  first [exact I | vm_compute; first [reflexivity | apply list_elem_of_here]].

Lemma sessionBuilt_reachable : reachable None sessionBuilt.
Proof. apply reachable_run; [constructor | offered]. Qed.

Lemma sessionLastSecond_reachable : reachable None sessionLastSecond.
Proof. apply reachable_run; [apply sessionBuilt_reachable | offered]. Qed.

Lemma no_tick_after_stop_or_finish_witness :
  reachable None sessionLastSecond
  ∧ run (map Tick [1; 1; 2]%nat) (handle StopProgram sessionLastSecond)
    = handle StopProgram sessionLastSecond
  ∧ run (map Tick [1; 2]%nat) (handle (Tick 1) sessionLastSecond)
    = handle (Tick 1) sessionLastSecond.
Proof.
  pose proof sessionLastSecond_reachable as Hr.
  destruct (no_tick_after_stop_or_finish None sessionLastSecond Hr) as [[_ Hstop] Hfin].
  split; [exact Hr|]. split; [apply Hstop|].
  apply (Hfin 1%nat); reflexivity.
Defined.



(** ** Starting and patching *)

Section StartAndPatch.

Implicit Types (s : Home).


Lemma start_empty s :
  flattenInstructionsEntire (instructions (builder s)) = [] →
  startProgram s = s
  ∧ execution (handle StartProgram s) = execution s
  ∧ builder (handle StartProgram s) = builder s.
Proof.
  intros E.
  assert (startProgram s = s) as Hu by (unfold startProgram; by rewrite E).
  split; [done|]. rewrite handle_frame; simpl; by rewrite Hu.
Qed.



Lemma edit_current_other s reply s' j :
  editCurrentInstruction reply s = Some s' →
  j ≠ index (programState (execution s)) →
  flattenedSequence (execution s') !! j = flattenedSequence (execution s) !! j.
Proof.
  unfold editCurrentInstruction. intros H Hj.
  destruct (negb _); [by injection H as <-|].
  destruct (_ !! _) as [cur|]; [|done].
  destruct reply as [str|]; [|by injection H as <-].
  destruct (JS.truthy _); [|by injection H as <-].
  destruct (parseTimeInput str) as [n|]; [|by injection H as <-].
  destruct (0 <? n); injection H as <-; [|done].
  simpl. by rewrite list_lookup_insert_ne.
Qed.


End StartAndPatch.

(** C7: the empty instruction list expands to the empty sequence; when the
    instructions expand to nothing, [startProgram] leaves the state as it
    is (running flag, index, countdown and stored sequence included); when
    they expand to a non-empty sequence, the run starts at index 0 with the
    duration of its first entry. *)
Theorem start_program_guard (s : Home) :
  expand [] = []
  ∧ (flattenInstructionsEntire (instructions (builder s)) = [] →
     startProgram s = s
     ∧ execution (handle StartProgram s) = execution s
     ∧ builder (handle StartProgram s) = builder s)
  ∧ (∀ first rest,
       flattenInstructionsEntire (instructions (builder s)) = first :: rest →
       flattenedSequence (execution (handle StartProgram s)) = first :: rest
       ∧ runState (handle StartProgram s) = (0%nat, ti_time first)
       ∧ running (handle StartProgram s) = true).
Proof.
  split; [done|]. split; [apply start_empty|].
  intros first rest E. destruct (start_spec s first rest E) as (O & Q & _).
  pose proof (f_equal (fun o => fst (fst o)) O) as O1.
  pose proof (f_equal (fun o => snd (fst o)) O) as O2.
  unfold observe in O1, O2. cbn [fst snd] in O1, O2. done.
Qed.

Lemma start_program_guard_witness :
  execution (handle StartProgram (mount None)) = execution (mount None)
  ∧ runState (handle StartProgram sessionBuilt) = (0%nat, 2)
  ∧ running (handle StartProgram sessionBuilt) = true.
Proof.
  split.
  - apply (start_program_guard (mount None)). reflexivity.
  - destruct (start_program_guard sessionBuilt) as (_ & _ & H).
    apply (H (mkTime 0 2) [mkTime 1 1]). reflexivity.
Defined.



(** C10: every entry of the expanded sequence is a time instruction of the
    input, identifier included; a repeat copies entries without new
    identifiers, so entries can share an id; and editing the current entry
    leaves the other entries, those with the same id too, as they were. *)
Theorem flat_entries_from_input :
  (∀ instrs t, t ∈ flattenInstructionsEntire instrs → ITime t ∈ instrs)
  ∧ flattenInstructionsEntire [ITime (mkTime 0 5); IRepeat 1 2]
    = [mkTime 0 5; mkTime 0 5; mkTime 0 5]
  ∧ (∀ s reply s' j,
       editCurrentInstruction reply s = Some s' →
       j ≠ index (programState (execution s)) →
       flattenedSequence (execution s') !! j = flattenedSequence (execution s) !! j)
  ∧ flattenedSequence (execution sessionPatched) = [mkTime 0 9; mkTime 0 5].
Proof.
  split_and!; [apply flatten_elem | done | apply edit_current_other | done].
Qed.

(** ** Adding instructions *)

Section Adding.

Implicit Types (s : Home).

Lemma addRepeat_without_time s :
  existsb isTime (instructions (builder s)) = false → addRepeatInstruction s = s.
Proof. unfold addRepeatInstruction. by intros ->. Qed.

Lemma addRepeat_with_time s :
  existsb isTime (instructions (builder s)) = true →
  instructions (builder (addRepeatInstruction s))
  = instructions (builder s)
    ++ [IRepeat (instructionIdRef (builder s)) (repeatInput (builder s))]
  ∧ instructionIdRef (builder (addRepeatInstruction s)) = S (instructionIdRef (builder s)).
Proof. unfold addRepeatInstruction. by intros ->. Qed.

(** The repeat field never holds zero, but it holds any other integer
    that is typed into it. *)
Lemma repeatInput_typed value s :
  repeatInput (builder (onRepeatInputChange value s))
  = match JS.parseInt value 0 with
    | Some 0 | None => 1
    | Some n => n
    end.
Proof.
  unfold onRepeatInputChange; simpl.
  destruct (JS.parseInt value 0) as [[| |]|]; done.
Qed.

End Adding.

(** C6, on the code: [addRepeatInstruction] leaves the list alone when it
    holds no time instruction, and otherwise appends a repeat with the next
    identifier and the count of the repeat field, whatever its sign: after
    [-3] is typed into the field, a repeat of [-3] is appended. *)
Theorem add_repeat_keeps_any_count (s : Home) :
  (existsb isTime (instructions (builder s)) = false → addRepeatInstruction s = s)
  ∧ (existsb isTime (instructions (builder s)) = true →
     instructions (builder (addRepeatInstruction s))
     = instructions (builder s)
       ++ [IRepeat (instructionIdRef (builder s)) (repeatInput (builder s))])
  ∧ reachable None sessionNegativeCount
  ∧ repeatInput (builder sessionNegativeCount) = -3
  ∧ instructions (builder (handle AddRepeatInstruction sessionNegativeCount))
    = [ITime (mkTime 0 5); IRepeat 1 (-3)].
Proof.
  split_and!.
  - apply addRepeat_without_time.
  - intros H. by apply addRepeat_with_time.
  - apply reachable_run; [constructor | offered].
  - reflexivity.
  - reflexivity.
Qed.

Lemma add_repeat_keeps_any_count_witness :
  addRepeatInstruction (mount None) = mount None
  ∧ instructions (builder (addRepeatInstruction sessionNegativeCount))
    = instructions (builder sessionNegativeCount) ++ [IRepeat 1 (-3)].
Proof.
  destruct (add_repeat_keeps_any_count (mount None)) as (H1 & _).
  destruct (add_repeat_keeps_any_count sessionNegativeCount) as (_ & H2 & _).
  split; [apply H1 | apply H2]; reflexivity.
Defined.

(** C8, on the code: the identifier counter starts at 0 on every visit and
    loading a saved timer does not move it, so after a timer saved on an
    earlier visit is loaded, the next instruction added gets an identifier
    the loaded list already uses. *)
Theorem ids_repeat_after_reload :
  reachable None sessionSaved
  ∧ localStorage (browser sessionSaved) = Some [mkSaved 0 "t" [ITime (mkTime 0 5)]]
  ∧ reachable (localStorage (browser sessionSaved)) sessionReloaded
  ∧ instructions (builder sessionReloaded) = [ITime (mkTime 0 5); ITime (mkTime 0 7)]
  ∧ ¬ NoDup (map inst_id (instructions (builder sessionReloaded))).
Proof.
  split_and!.
  - apply reachable_run; [constructor | offered].
  - reflexivity.
  - apply reachable_run; [constructor | offered].
  - reflexivity.
  - intros H. apply NoDup_cons_1_1 in H. apply H. apply list_elem_of_here.
Qed.

(** ** Identifiers within one visit *)

Section Identifiers.

Implicit Types (s : Home) (l : list Instruction) (next : nat).

Lemma issued_nil next : issued next [].
Proof. split; constructor. Qed.

Lemma issued_mono next l : issued next l → issued (S next) l.
Proof.
  intros [Hd Hb]. split; [done|].
  eapply Forall_impl; [exact Hb|]. simpl. lia.
Qed.

Lemma issued_snoc next l inst :
  issued next l → inst_id inst = next → issued (S next) (l ++ [inst]).
Proof.
  intros [Hd Hb] Hid. unfold issued, ids in *. rewrite map_app. simpl. split.
  - apply NoDup_app. split_and!; [done| |apply NoDup_singleton].
    intros i Hi ->%list_elem_of_singleton.
    rewrite Forall_forall in Hb. specialize (Hb _ Hi). lia.
  - apply Forall_app. split.
    + eapply Forall_impl; [exact Hb|]. simpl. lia.
    + constructor; [lia|constructor].
Qed.

Lemma Forall_sublist {A} (P : A → Prop) (l1 l2 : list A) :
  Forall P l2 → sublist l1 l2 → Forall P l1.
Proof.
  rewrite !Forall_forall. intros H Hsub x Hx.
  apply H. by apply (sublist_subseteq _ _ Hsub).
Qed.

Lemma issued_filter next l (P : Instruction → Prop) `{∀ x, Decision (P x)} :
  issued next l → issued next (filter P l).
Proof.
  intros [Hd Hb]. unfold issued, ids in *.
  assert (sublist (map inst_id (filter P l)) (map inst_id l)) as Hsub.
  { apply fmap_sublist, sublist_filter. }
  split; [by eapply sublist_NoDup | by eapply Forall_sublist].
Qed.

Lemma editOne_id inst reply : inst_id (editOne inst reply) = inst_id inst.
Proof.
  destruct inst as [t|id times], reply as [str|]; simpl; try done.
  - destruct (negb _); [|done].
    destruct (parseTimeInput str) as [n|]; [destruct (0 <? n)|]; done.
  - destruct (negb _); [|done].
    destruct (JS.parseInt str 10) as [n|]; [destruct (0 <? n)|]; done.
Qed.

Lemma editAll_ids id l replies : ids (editAll id l replies) = ids l.
Proof.
  unfold ids. revert replies; induction l as [|inst l IH]; intros replies; simpl; [done|].
  destruct (Nat.eqb (inst_id inst) id); simpl; by rewrite ?editOne_id, IH.
Qed.

Lemma render_builder_saved s s' :
  builder (render s s') = builder s' ∧ saved (render s s') = saved s'.
Proof.
  unfold render. destruct (countdownDepsChanged s s'); [|done].
  unfold countdownEffect, countdownCleanup, clearProgramInterval.
  destruct (programIntervalRef (execution s')) as [h|]; [destruct (Nat.eqb h 0)|];
    simpl; destruct (isProgramRunning (execution s')); done.
Qed.

Lemma update_runner_builder_saved ev s :
  quiet ev = false →
  builder (update ev s) = builder s ∧ saved (update ev s) = saved s.
Proof.
  destruct ev; try discriminate; intros _; simpl.
  - unfold startProgram. by destruct (flattenInstructionsEntire _).
  - unfold stopProgram, clearProgramInterval. simpl.
    destruct (programIntervalRef _) as [h|]; [destruct (Nat.eqb h 0)|]; done.
  - unfold editCurrentInstruction.
    destruct (negb _); [done|]. destruct (_ !! _); [|done].
    destruct reply as [str|]; [|done]. destruct (JS.truthy _); [|done].
    destruct (parseTimeInput str) as [n|]; [destruct (0 <? n)|]; done.
  - destruct (_ !! _) as [sequence|]; [|done]. unfold intervalCallback.
    destruct (0 <? _); [done|]. by destruct (_ !! _).
Qed.

Lemma idsIssued_update ev s : idsIssued s → enabled s ev → idsIssued (update ev s).
Proof.
  intros [Hl Hsaved] Hen. destruct (quiet ev) eqn:Eq; cycle 1.
  { destruct (update_runner_builder_saved ev s Eq) as [Hb Hv].
    unfold idsIssued. by rewrite Hb, Hv. }
  destruct ev; try discriminate; unfold idsIssued; simpl; try done.
  - unfold addTimeInstruction.
    destruct (parseTimeInput _) as [n|]; [destruct (n <=? 0)|]; try done.
    simpl. split; [by apply issued_snoc|].
    eapply Forall_impl; [exact Hsaved|]. intros timer. apply issued_mono.
  - unfold addRepeatInstruction. destruct (negb _); [done|].
    simpl. split; [by apply issued_snoc|].
    eapply Forall_impl; [exact Hsaved|]. intros timer. apply issued_mono.
  - unfold editInstruction. destruct (editingRef _); [done|]. simpl.
    split; [|done]. unfold issued. by rewrite editAll_ids.
  - split; [|done]. by apply issued_filter.
  - split; [apply issued_nil | done].
  - unfold saveOrUpdateTimer. destruct (_ || _); [done|].
    destruct (loadedTimerId _) as [loaded|]; simpl; (split; [done|]).
    + rewrite Forall_forall in Hsaved. apply Forall_forall.
      intros timer [t [-> Ht]]%list_elem_of_fmap.
      destruct (Nat.eqb (st_id t) loaded); [done | by apply Hsaved].
    + apply Forall_app. split; [done|]. by constructor.
  - destruct Hen as [_ Hin]. rewrite Forall_forall in Hsaved. split; [|by apply Forall_forall].
    by apply Hsaved.
  - unfold editSavedTimer. destruct reply as [newName|]; [|done].
    destruct (JS.truthy _); [|done]. simpl. split; [done|].
    rewrite Forall_forall in Hsaved. apply Forall_forall.
    intros timer [t [-> Ht]]%list_elem_of_fmap.
    destruct (Nat.eqb (st_id t) id); simpl; by apply Hsaved.
  - split; [done|]. eapply Forall_sublist; [exact Hsaved | apply sublist_filter].
Qed.

(** X19: on a visit that finds no saved timers, the identifiers of the
    instructions in the list never repeat, whatever is added, edited,
    deleted, saved or loaded. *)
Lemma ids_unique_within_visit stored s :
  default [] stored = [] → reachable stored s → NoDup (ids (instructions (builder s))).
Proof.
  intros Hstored Hs. cut (idsIssued s); [by intros [[? _] _]|].
  induction Hs as [|s ev _ IH Hen].
  - unfold idsIssued; simpl. rewrite Hstored. split; [apply issued_nil | constructor].
  - unfold handle, idsIssued.
    destruct (render_builder_saved s (update ev s)) as [-> ->].
    by apply idsIssued_update.
Qed.

End Identifiers.

Lemma flat_entries_from_input_witness :
  ITime (mkTime 0 5) ∈ [ITime (mkTime 0 5); IRepeat 1 2]
  ∧ flattenedSequence
      (execution (update (EditCurrentInstruction (Some "9"%string)) sessionRepeated))
    !! 1%nat
    = Some (mkTime 0 5).
Proof.
  destruct flat_entries_from_input as (Hin & Hex & Hother & _).
  split.
  - apply Hin. rewrite Hex. apply list_elem_of_here.
  - rewrite (Hother sessionRepeated (Some "9"%string)
                    (update (EditCurrentInstruction (Some "9"%string)) sessionRepeated)
                    1%nat); [reflexivity | reflexivity | ].
    vm_compute. lia.
Defined.

(** * Further properties of the page *)

(** ** More on the expander *)

Section ExpanderMore.

Implicit Types (instrs : list Instruction) (flattened : list TimeInstruction).

Lemma flattenStep_extends flattened inst :
  flattened `prefix_of` flattenStep flattened inst.
Proof.
  destruct inst as [t|id times]; simpl.
  - by apply prefix_app_r.
  - rewrite pushCopies_copies. by apply prefix_app_r.
Qed.




End ExpanderMore.

(** X1: a list of time instructions only expands to itself, in order. *)
Theorem flatten_times_only (ts : list TimeInstruction) :
  flattenInstructionsEntire (map ITime ts) = ts.
Proof.
  induction ts as [|t ts IH] using rev_ind; [done|].
  rewrite map_app. simpl. by rewrite flatten_snoc_time, IH.
Qed.

(** X2: what was expanded from a list stays in front when instructions are
    appended to the list: appending never reorders or drops it. *)
Theorem flatten_extends (instrs more : list Instruction) :
  flattenInstructionsEntire instrs `prefix_of` flattenInstructionsEntire (instrs ++ more).
Proof.
  induction more as [|inst more IH] using rev_ind.
  - by rewrite app_nil_r.
  - rewrite app_assoc, flatten_snoc.
    etrans; [exact IH | apply flattenStep_extends].
Qed.



(** ** More on time strings *)

Section TimeStringsMore.

Implicit Types (n t : Z).

Lemma toStringL_length_pos n : 0 ≤ n → (1 ≤ length (JS.toStringL n))%nat.
Proof.
  intros Hn. destruct (toStringL_numeral n Hn) as [Hnum _].
  destruct (JS.toStringL n); [done | simpl; lia].
Qed.

Lemma toStringL_length_small n : 0 ≤ n < 100 → (length (JS.toStringL n) ≤ 2)%nat.
Proof.
  intros Hn. unfold JS.toStringL. replace (n <? 0) with false by lia.
  simpl JS.digitsOf. destruct (n <? 10) eqn:E; [simpl; lia|].
  assert (3 ≤ Z.log2 n) as Hlog.
  { change 3 with (Z.log2 8). apply Z.log2_le_mono. lia. }
  destruct (Z.to_nat (Z.log2 n)) as [|fuel] eqn:Ef; [lia|].
  simpl JS.digitsOf. replace (n / 10 <? 10) with true; [simpl; lia|].
  symmetry. apply Z.ltb_lt. apply Z.div_lt_upper_bound; lia.
Qed.

Lemma pad2_length n :
  0 ≤ n → (2 ≤ length (pad2 n))%nat ∧ (n < 100 → length (pad2 n) = 2%nat).
Proof.
  intros Hn. unfold pad2, JS.padStartL. rewrite length_app, length_replicate.
  pose proof (toStringL_length_pos n Hn). split; [lia|].
  intros Hsmall. pose proof (toStringL_length_small n (conj Hn Hsmall)). lia.
Qed.

Lemma formatted_parses t : 0 ≤ t → parseTimeInput (formatTime t) = Some t.
Proof.
  intros Ht. unfold parseTimeInput, formatTime.
  rewrite list_ascii_of_string_of_list_ascii.
  assert (0 ≤ t / 3600) as H1 by (apply Z.div_pos; lia).
  assert (0 ≤ Z.rem t 3600 / 60) as H2.
  { apply Z.div_pos; [|lia]. apply Z.rem_nonneg; lia. }
  assert (0 ≤ Z.rem t 60) as H3 by (apply Z.rem_nonneg; lia).
  destruct (pad2_numeral _ H1) as [N1 V1], (pad2_numeral _ H2) as [N2 V2],
    (pad2_numeral _ H3) as [N3 V3].
  rewrite parseTimeInputL_numerals; rewrite formatTimeL_fields by done;
    [|by repeat constructor|simpl; lia].
  unfold seconds. simpl. rewrite V1, V2, V3. f_equal.
  rewrite !Z.rem_mod_nonneg by lia.
  assert (t mod 60 = (t mod 3600) mod 60) as ->.
  { rewrite <- (Z.mod_mod_divide t 3600 60); [done|]. by exists 60. }
  pose proof (Z.div_mod t 3600). pose proof (Z.div_mod (t mod 3600) 60). lia.
Qed.

Lemma printed_parses n :
  0 ≤ n → JS.parseInt (string_of_list_ascii (JS.toStringL n)) 10 = Some n.
Proof.
  intros Hn. unfold JS.parseInt. rewrite list_ascii_of_string_of_list_ascii.
  destruct (toStringL_numeral n Hn) as [Hnum Hval].
  by rewrite parseIntL_numeral, Hval.
Qed.

Lemma string_of_list_nonempty (l : list ascii) :
  l ≠ [] → String.eqb (string_of_list_ascii l) EmptyString = false.
Proof. by destruct l. Qed.

Lemma formatTime_truthy t : JS.truthy (Some (formatTime t)) = true.
Proof.
  unfold JS.truthy, formatTime. rewrite string_of_list_nonempty; [done|].
  unfold formatTimeL. by destruct (pad2 (t / 3600)).
Qed.

End TimeStringsMore.

(** X4: for a total [0 <= t < 2^53], the page's [formatTime] (on doubles)
    prints what the integer version prints: three numerals, the hours, the
    minutes below 60 and the seconds below 60; each has at least two digits,
    minutes and seconds exactly two, and below 100 hours the string is
    [HH:MM:SS] with two digits each. *)
Theorem formatTime_fields (t : Z) :
  0 ≤ t < 2 ^ 53 →
  Binary64.formatTime (Binary64.Int t) = Some (formatTime t)
  ∧ Forall (fun f => numeral f = true) (fieldsOf (formatTime t))
  ∧ map numeralValue (fieldsOf (formatTime t)) = [t / 3600; t mod 3600 / 60; t mod 60]
  ∧ Forall (fun f => (2 ≤ length f)%nat) (fieldsOf (formatTime t))
  ∧ drop 1 (map length (fieldsOf (formatTime t))) = [2; 2]%nat
  ∧ (t < 360000 → map length (fieldsOf (formatTime t)) = [2; 2; 2]%nat).
Proof.
  intros Hsafe. split; [by apply b64_formatTime_safe|].
  assert (0 ≤ t) as Ht by lia. unfold fieldsOf, formatTime.
  rewrite list_ascii_of_string_of_list_ascii, formatTimeL_fields by done.
  rewrite !Z.rem_mod_nonneg by lia.
  assert (0 ≤ t / 3600) as H1 by (apply Z.div_pos; lia).
  pose proof (Z.mod_pos_bound t 3600) as B1.
  pose proof (Z.mod_pos_bound t 60) as B2.
  assert (0 ≤ t mod 3600 / 60 < 60) as H2.
  { split; [apply Z.div_pos; lia | apply Z.div_lt_upper_bound; lia]. }
  destruct (pad2_numeral _ H1) as [N1 V1], (pad2_numeral (t mod 3600 / 60)) as [N2 V2],
    (pad2_numeral (t mod 60)) as [N3 V3]; try lia.
  destruct (pad2_length _ H1) as [L1 L1'], (pad2_length (t mod 3600 / 60)) as [L2 L2'],
    (pad2_length (t mod 60)) as [L3 L3']; try lia.
  split_and!.
  - by repeat constructor.
  - simpl. by rewrite V1, V2, V3.
  - by repeat constructor.
  - simpl. rewrite L2', L3' by lia. done.
  - intros Hh. simpl. rewrite L1', L2', L3'; try lia; [done|].
    apply Z.div_lt_upper_bound; lia.
Qed.

Lemma formatTime_fields_witness :
  0 ≤ 3725 < 2 ^ 53
  ∧ Binary64.formatTime (Binary64.Int 3725) = Some (formatTime 3725)
  ∧ map numeralValue (fieldsOf (formatTime 3725))
    = [3725 / 3600; 3725 mod 3600 / 60; 3725 mod 60].
Proof.
  assert (0 ≤ 3725 < 2 ^ 53) as H by lia.
  destruct (formatTime_fields 3725 H) as (Hf & _ & Hv & _).
  split; [exact H|]. split; [exact Hf | exact Hv].
Defined.

(** X5: for [0 < t < 2^53], what the page prints for [t] is read back
    as [t], and typing it and pressing Add Time Instruction appends a time
    instruction of [t] seconds, with the next identifier, and empties the
    field. *)
Theorem add_formatted_time (s : Home) (t : Z) :
  0 < t < 2 ^ 53 →
  let s' := run [TimeInputChange (formatTime t); AddTimeInstruction] s in
  Binary64.formatTime (Binary64.Int t) = Some (formatTime t)
  ∧ Binary64.parseTimeInput (formatTime t) = Some (Binary64.Int t)
  ∧ instructions (builder s')
    = instructions (builder s) ++ [ITime (mkTime (instructionIdRef (builder s)) t)]
  ∧ instructionIdRef (builder s') = S (instructionIdRef (builder s))
  ∧ timeInput (builder s') = EmptyString.
Proof.
  intros Ht s'. destruct (b64_roundTrip_safe t) as [Hf Hp]; [lia|].
  split; [exact Hf|]. split; [exact Hp|].
  subst s'. unfold run. simpl fold_left.
  set (s1 := handle (TimeInputChange (formatTime t)) s).
  assert (builder s1 = builder (setTimeInput (formatTime t) s)) as Hb1.
  { apply (render_builder_saved s (update (TimeInputChange (formatTime t)) s)). }
  assert (builder (handle AddTimeInstruction s1) = builder (addTimeInstruction s1)) as ->.
  { apply (render_builder_saved s1 (update AddTimeInstruction s1)). }
  unfold addTimeInstruction. rewrite Hb1. simpl.
  rewrite formatted_parses by lia.
  replace (t <=? 0) with false by lia. done.
Qed.

Lemma add_formatted_time_witness :
  0 < 90 < 2 ^ 53
  ∧ instructions (builder (run [TimeInputChange (formatTime 90); AddTimeInstruction]
                               sessionBuilt))
    = instructions (builder sessionBuilt)
      ++ [ITime (mkTime (instructionIdRef (builder sessionBuilt)) 90)].
Proof.
  assert (0 < 90 < 2 ^ 53) as H by lia.
  destruct (add_formatted_time sessionBuilt 90 H) as (_ & _ & Hi & _).
  split; [exact H | exact Hi].
Defined.

(** ** Editing and deleting instructions *)

Section EditDelete.

Implicit Types (s : Home) (l : list Instruction) (inst : Instruction) (id j : nat).

Lemma handle_builder ev s : builder (handle ev s) = builder (update ev s).
Proof. apply (render_builder_saved s (update ev s)). Qed.

Lemma handle_saved ev s : saved (handle ev s) = saved (update ev s).
Proof. apply (render_builder_saved s (update ev s)). Qed.

Lemma editOne_kind inst reply : isTime (editOne inst reply) = isTime inst.
Proof.
  destruct inst as [t|id times], reply as [str|]; simpl; try done.
  - destruct (negb _); [|done].
    destruct (parseTimeInput str) as [n|]; [destruct (0 <? n)|]; done.
  - destruct (negb _); [|done].
    destruct (JS.parseInt str 10) as [n|]; [destruct (0 <? n)|]; done.
Qed.

Lemma editOne_positive inst reply :
  match inst with ITime t => 0 < ti_time t | IRepeat _ _ => True end →
  match editOne inst reply with ITime t => 0 < ti_time t | IRepeat _ _ => True end.
Proof.
  destruct inst as [t|id times], reply as [str|]; simpl; try done.
  - destruct (negb _); [|done].
    destruct (parseTimeInput str) as [n|]; [destruct (0 <? n) eqn:E|]; try done.
    simpl. lia.
  - destruct (negb _); [|done].
    destruct (JS.parseInt str 10) as [n|]; [destruct (0 <? n)|]; done.
Qed.

Lemma editAll_kinds id l replies : map isTime (editAll id l replies) = map isTime l.
Proof.
  revert replies; induction l as [|inst l IH]; intros replies; simpl; [done|].
  destruct (Nat.eqb (inst_id inst) id); simpl; by rewrite ?editOne_kind, IH.
Qed.

Lemma editAll_positive id l replies :
  positiveTimes l → positiveTimes (editAll id l replies).
Proof.
  unfold positiveTimes.
  revert replies; induction l as [|inst l IH]; intros replies Hl; simpl; [done|].
  apply Forall_cons in Hl as [Hinst Hl].
  destruct (Nat.eqb (inst_id inst) id); constructor; try by apply IH.
  - by apply editOne_positive.
  - done.
Qed.

Lemma editAll_other id l replies j inst :
  l !! j = Some inst → inst_id inst ≠ id → editAll id l replies !! j = Some inst.
Proof.
  revert replies j; induction l as [|x l IH]; intros replies j Hj Hne; [done|].
  simpl. destruct j as [|j]; simpl in Hj.
  - injection Hj as ->. by rewrite (proj2 (Nat.eqb_neq _ _) Hne).
  - destruct (Nat.eqb (inst_id x) id); simpl; by apply IH.
Qed.

Lemma editAll_absent id l replies : id ∉ ids l → editAll id l replies = l.
Proof.
  unfold ids. induction l as [|x l IH]; simpl; [done|].
  rewrite not_elem_of_cons. intros [Hne Hl].
  rewrite (proj2 (Nat.eqb_neq (inst_id x) id)) by done. by rewrite IH.
Qed.

Lemma ids_lookup l j inst : l !! j = Some inst → inst_id inst ∈ ids l.
Proof.
  intros Hj. unfold ids. apply list_elem_of_fmap. exists inst.
  split; [done|]. by apply list_elem_of_lookup_2 in Hj.
Qed.

Lemma editAll_unique l j inst r rs :
  NoDup (ids l) → l !! j = Some inst →
  editAll (inst_id inst) l (r :: rs) = <[j := editOne inst r]> l.
Proof.
  revert j; induction l as [|x l IH]; intros j Hd Hj; [done|].
  unfold ids in Hd. simpl in Hd. apply NoDup_cons in Hd as [Hx Hd].
  destruct j as [|j]; simpl in Hj.
  - injection Hj as ->. simpl. rewrite Nat.eqb_refl. simpl.
    by rewrite editAll_absent.
  - simpl. assert (inst_id x ≠ inst_id inst) as Hne.
    { intros E. apply Hx. rewrite E. by apply (ids_lookup l j). }
    rewrite (proj2 (Nat.eqb_neq _ _) Hne). by rewrite (IH j).
Qed.

Lemma filter_absent id l :
  id ∉ ids l → filter (fun x => inst_id x ≠ id) l = l.
Proof.
  unfold ids. induction l as [|x l IH]; simpl; [done|].
  rewrite not_elem_of_cons. intros [Hne Hl].
  rewrite filter_cons_True by done. by rewrite IH.
Qed.

Lemma filter_unique l j inst :
  NoDup (ids l) → l !! j = Some inst →
  filter (fun x => inst_id x ≠ inst_id inst) l = delete j l.
Proof.
  revert j; induction l as [|x l IH]; intros j Hd Hj; [done|].
  unfold ids in Hd. simpl in Hd. apply NoDup_cons in Hd as [Hx Hd].
  destruct j as [|j]; simpl in Hj.
  - injection Hj as ->. rewrite filter_cons_False by (intros H; by apply H).
    simpl. by apply filter_absent.
  - assert (inst_id x ≠ inst_id inst) as Hne.
    { intros E. apply Hx. rewrite E. by apply (ids_lookup l j). }
    rewrite filter_cons_True by done. simpl. by rewrite (IH j).
Qed.

Lemma update_editingRef ev s :
  editingRef (builder s) = false → editingRef (builder (update ev s)) = false.
Proof.
  intros He. destruct (quiet ev) eqn:Eq; cycle 1.
  { destruct (update_runner_builder_saved ev s Eq) as [-> _]. done. }
  destruct ev; try discriminate; simpl; try done.
  - unfold addTimeInstruction.
    destruct (parseTimeInput _) as [n|]; [destruct (n <=? 0)|]; done.
  - unfold addRepeatInstruction. by destruct (negb _).
  - unfold editInstruction. by rewrite He.
  - unfold saveOrUpdateTimer.
    destruct (_ || _); [done|]. by destruct (loadedTimerId _).
  - unfold editSavedTimer. destruct reply; [destruct (JS.truthy _)|]; done.
Qed.

Lemma reachable_editingRef stored s : reachable stored s → editingRef (builder s) = false.
Proof.
  induction 1 as [|s ev _ IH _]; [done|].
  rewrite handle_builder. by apply update_editingRef.
Qed.

Lemma editOne_default inst :
  match inst with ITime t => 0 ≤ ti_time t | IRepeat _ times => 0 ≤ times end →
  editOne inst (Some (promptDefault inst)) = inst.
Proof.
  destruct inst as [[id t]|id times]; intros Hpos;
    unfold editOne, promptDefault; cbn [ti_time ti_id] in *.
  - rewrite formatTime_truthy, formatted_parses by done.
    by destruct (0 <? t).
  - destruct (JS.truthy _); [|done]. rewrite printed_parses by done.
    by destruct (0 <? times).
Qed.

End EditDelete.

(** X6: editing an instruction keeps the length of the list, the
    identifiers in their order and the kind of every instruction, leaves
    every instruction with another identifier as it was, and keeps all time
    instructions positive if they were. *)
Theorem edit_instruction_frame (s : Home) (id : nat) (replies : list (option string)) :
  let l := instructions (builder s) in
  let l' := instructions (builder (handle (EditInstruction id replies) s)) in
  length l' = length l
  ∧ ids l' = ids l
  ∧ map isTime l' = map isTime l
  ∧ (∀ j inst, l !! j = Some inst → inst_id inst ≠ id → l' !! j = Some inst)
  ∧ (positiveTimes l → positiveTimes l').
Proof.
  intros l l'. subst l l'. rewrite handle_builder. simpl. unfold editInstruction.
  destruct (editingRef (builder s)); [done|]. simpl.
  split_and!.
  - pose proof (f_equal length (editAll_ids id (instructions (builder s)) replies)) as H.
    unfold ids in H. by rewrite !length_map in H.
  - apply editAll_ids.
  - apply editAll_kinds.
  - intros j inst. apply editAll_other.
  - apply editAll_positive.
Qed.

Lemma edit_instruction_frame_witness :
  instructions (builder sessionBuilt) !! 1%nat = Some (ITime (mkTime 1 1))
  ∧ instructions (builder (handle (EditInstruction 0 [Some "0:07"%string]) sessionBuilt))
    !! 1%nat
    = Some (ITime (mkTime 1 1)).
Proof.
  assert (instructions (builder sessionBuilt) !! 1%nat = Some (ITime (mkTime 1 1)))
    as Hj by (vm_compute; reflexivity).
  split; [exact Hj|].
  destruct (edit_instruction_frame sessionBuilt 0 [Some "0:07"%string])
    as (_ & _ & _ & H & _).
  exact (H 1%nat (ITime (mkTime 1 1)) Hj (fun E => Nat.neq_succ_0 _ E)).
Defined.



(** X8: while identifiers are pairwise distinct, and for an instruction
    whose time or count is between 0 and [2^53], what the edit prompt
    proposes is what the page prints and reads back as the same number, and
    accepting it leaves the instruction list as it was. *)
Theorem edit_default_unchanged stored (s : Home) (j : nat) (inst : Instruction) :
  reachable stored s →
  NoDup (ids (instructions (builder s))) →
  instructions (builder s) !! j = Some inst →
  match inst with
  | ITime t => 0 ≤ ti_time t < 2 ^ 53
  | IRepeat _ times => 0 ≤ times < 2 ^ 53
  end →
  proposedExactly inst
  ∧ instructions (builder (handle (EditInstruction (inst_id inst)
                                     [Some (promptDefault inst)]) s))
    = instructions (builder s).
Proof.
  intros Hs Hd Hj Hpos. split.
  - destruct inst as [[id t]|id times]; simpl in *.
    + by apply b64_roundTrip_safe.
    + rewrite list_ascii_of_string_of_list_ascii.
      destruct (toStringL_numeral times) as [Hnum Hval]; [lia|].
      unfold Binary64.parseIntL. rewrite parseIntL_numeral, Hval by done.
      rewrite ofZ_safe by (unfold safe; lia).
      split; [|done]. by replace (Z.abs times <? 2 ^ 53) with true by lia.
  - rewrite handle_builder. simpl. unfold editInstruction.
    rewrite (reachable_editingRef _ _ Hs). simpl.
    rewrite (editAll_unique _ j inst) by done.
    rewrite editOne_default; [by apply list_insert_id|].
    destruct inst; lia.
Qed.

Lemma edit_default_unchanged_witness :
  reachable None sessionBuilt
  ∧ proposedExactly (ITime (mkTime 0 2))
  ∧ instructions (builder (handle (EditInstruction (inst_id (ITime (mkTime 0 2)))
                                     [Some (promptDefault (ITime (mkTime 0 2)))])
                                  sessionBuilt))
    = instructions (builder sessionBuilt).
Proof.
  assert (NoDup (ids (instructions (builder sessionBuilt)))) as Hd.
  { apply (bool_decide_unpack _). vm_compute. exact I. }
  assert (instructions (builder sessionBuilt) !! 0%nat = Some (ITime (mkTime 0 2)))
    as Hj by (vm_compute; reflexivity).
  assert (0 ≤ ti_time (mkTime 0 2) < 2 ^ 53) as Hpos by (simpl; lia).
  split; [apply sessionBuilt_reachable|].
  exact (edit_default_unchanged None sessionBuilt 0 (ITime (mkTime 0 2))
           sessionBuilt_reachable Hd Hj Hpos).
Defined.

(** X9: deleting by an identifier the list does not use changes nothing;
    while identifiers are pairwise distinct, deleting by the identifier of
    an instruction removes that instruction and no other. *)
Theorem delete_instruction_exact (s : Home) :
  (∀ id, id ∉ ids (instructions (builder s)) →
         instructions (builder (handle (DeleteInstruction id) s))
         = instructions (builder s))
  ∧ (NoDup (ids (instructions (builder s))) →
     ∀ j inst, instructions (builder s) !! j = Some inst →
               instructions (builder (handle (DeleteInstruction (inst_id inst)) s))
               = delete j (instructions (builder s))).
Proof.
  split.
  - intros id Hid. rewrite handle_builder. simpl. by apply filter_absent.
  - intros Hd j inst Hj. rewrite handle_builder. simpl. by apply filter_unique.
Qed.

Lemma delete_instruction_exact_witness :
  instructions (builder (handle (DeleteInstruction 7) sessionBuilt))
  = instructions (builder sessionBuilt)
  ∧ instructions (builder (handle (DeleteInstruction (inst_id (ITime (mkTime 0 2))))
                                  sessionBuilt))
    = delete 0%nat (instructions (builder sessionBuilt)).
Proof.
  assert (NoDup (ids (instructions (builder sessionBuilt)))) as Hd.
  { apply (bool_decide_unpack _). vm_compute. exact I. }
  assert (7%nat ∉ ids (instructions (builder sessionBuilt))) as Hid.
  { apply (bool_decide_unpack _). vm_compute. exact I. }
  assert (instructions (builder sessionBuilt) !! 0%nat = Some (ITime (mkTime 0 2)))
    as Hj by (vm_compute; reflexivity).
  destruct (delete_instruction_exact sessionBuilt) as [Habsent Hunique].
  split; [exact (Habsent 7%nat Hid) | exact (Hunique Hd 0%nat (ITime (mkTime 0 2)) Hj)].
Defined.

(** ** Running a program to its end *)

Section Completion.

Implicit Types (s : Home) (h i p : nat) (c : Z) (seq : list TimeInstruction).

Lemma tick_at s h seq i c p :
  runningAt s h seq i c p →
  if 0 <? c then runningAt (handle (Tick h) s) h seq i (c - 1) p
  else match seq !! S i with
       | Some next => runningAt (handle (Tick h) s) h seq (S i) (ti_time next) (S p)
       | None => consistent (handle (Tick h) s)
                 ∧ observe (handle (Tick h) s) = ((i, c), false, S p)
       end.
Proof.
  intros (Hc & Href & Hseq & Ho).
  pose proof (consistent_handle (Tick h) s Hc) as Hc'.
  unfold observe, runState in Ho. injection Ho as Ei Ec Er Ep.
  destruct (tick_spec s h Hc Er Href) as (Q & R & O).
  rewrite Ei, Ec, Ep, Hseq in O. rewrite Hseq in Q.
  destruct (0 <? c); [by split_and!|].
  destruct (seq !! S i); by split_and!.
Qed.

Lemma ticksFor_zero (durs : list Z) : ticksFor durs = 0%nat → durs = [].
Proof. by destruct durs. Qed.

Lemma run_ticks_succ h n s :
  run (repeat (Tick h) (S n)) s = run (repeat (Tick h) n) (handle (Tick h) s).
Proof. done. Qed.

Lemma run_to_end k : ∀ s h seq i c p,
  runningAt s h seq i c p →
  (S (Z.to_nat c) + ticksFor (durations (drop (S i) seq)))%nat = S k →
  (∀ n, (n ≤ k)%nat → running (run (repeat (Tick h) n) s) = true)
  ∧ running (run (repeat (Tick h) (S k)) s) = false
  ∧ audioPlays (browser (run (repeat (Tick h) (S k)) s))
    = (p + S (length (drop (S i) seq)))%nat
  ∧ index (programState (execution (run (repeat (Tick h) (S k)) s))) = pred (length seq).
Proof.
  induction k as [|k IH]; intros s h seq i c p Hat Htotal.
  - assert (c ≤ 0) as Hc by lia.
    assert (drop (S i) seq = []) as Hrest.
    { apply (fmap_nil_inv ti_time). apply ticksFor_zero.
      change (ticksFor (durations (drop (S i) seq)) = 0%nat). lia. }
    pose proof (tick_at s h seq i c p Hat) as Hstep.
    replace (0 <? c) with false in Hstep by lia.
    assert (seq !! S i = None) as Hnone.
    { apply lookup_ge_None. apply drop_nil_inv in Hrest. lia. }
    rewrite Hnone in Hstep. destruct Hstep as [_ Ho].
    destruct Hat as ((_ & _ & _ & Hrun) & _ & Hseq & Hobs).
    unfold observe, runState, running in Hobs. injection Hobs as Ei _ Er _.
    rewrite Er, Hseq, Ei in Hrun. destruct Hrun as [Hi _].
    apply lookup_ge_None in Hnone.
    unfold observe, runState in Ho. injection Ho as Oi _ Or Op.
    split_and!.
    + intros n Hn. assert (n = 0%nat) as -> by lia. simpl. by unfold running.
    + done.
    + rewrite run_ticks_succ. simpl. rewrite Op, Hrest. simpl. lia.
    + rewrite run_ticks_succ. simpl. rewrite Oi. lia.
  - pose proof (tick_at s h seq i c p Hat) as Hstep.
    assert (running s = true) as Hr.
    { destruct Hat as (_ & _ & _ & Hobs). unfold observe in Hobs. by injection Hobs. }
    destruct (0 <? c) eqn:Ec.
    + destruct (IH _ _ _ _ _ _ Hstep) as (Hbefore & Hend & Hplays & Hidx); [lia|].
      split_and!; try done.
      intros [|n] Hn; [done|]. rewrite run_ticks_succ. apply Hbefore. lia.
    + destruct (seq !! S i) as [next|] eqn:En; cycle 1.
      { apply lookup_ge_None in En. rewrite drop_ge in Htotal by done.
        simpl in Htotal. lia. }
      pose proof (drop_S _ _ _ En) as Hdrop. rewrite Hdrop in Htotal |- *.
      simpl in Htotal.
      destruct (IH _ _ _ _ _ _ Hstep) as (Hbefore & Hend & Hplays & Hidx); [lia|].
      split_and!; try done.
      * intros [|n] Hn; [done|]. rewrite run_ticks_succ. apply Hbefore. lia.
      * rewrite run_ticks_succ, Hplays. simpl. lia.
Qed.

End Completion.

Lemma render_run_fields s s' :
  flattenedSequence (execution (render s s')) = flattenedSequence (execution s')
  ∧ programState (execution (render s s')) = programState (execution s')
  ∧ isProgramRunning (execution (render s s')) = isProgramRunning (execution s').
Proof.
  unfold render. destruct (countdownDepsChanged s s'); [|done].
  unfold countdownEffect, countdownCleanup, clearProgramInterval.
  destruct (programIntervalRef (execution s')) as [h|]; [destruct (Nat.eqb h 0)|];
    simpl; destruct (isProgramRunning (execution s')) eqn:E; simpl; rewrite ?E; done.
Qed.

Lemma tick_bounded (B : Z) (h : nat) (s : Home) :
  consistent s →
  Forall (fun t => ti_time t < B) (flattenedSequence (execution s)) →
  countdown (programState (execution s)) < B →
  flattenedSequence (execution (handle (Tick h) s)) = flattenedSequence (execution s)
  ∧ countdown (programState (execution (handle (Tick h) s))) < B.
Proof.
  intros Hcons Hseq Hc. unfold handle.
  destruct (render_run_fields s (update (Tick h) s)) as (-> & -> & _). simpl.
  destruct (timers (browser s) !! h) as [sequence|] eqn:El; [|done].
  assert (sequence = flattenedSequence (execution s)) as ->.
  { destruct Hcons as (_ & _ & _ & Hrun).
    destruct (isProgramRunning (execution s)).
    - destruct Hrun as (_ & h0 & _ & Et). rewrite Et in El.
      by apply lookup_singleton_Some in El as [_ <-].
    - by rewrite Hrun, lookup_empty in El. }
  unfold intervalCallback.
  destruct (0 <? countdown (programState (execution s))) eqn:Ec; simpl.
  - split; [done|lia].
  - destruct (flattenedSequence (execution s) !! S _) as [next|] eqn:En; simpl; [|done].
    split; [done|]. rewrite Forall_forall in Hseq.
    apply list_elem_of_lookup_2 in En. by apply Hseq.
Qed.

Lemma run_ticks_bounded (B : Z) (h : nat) (n : nat) : ∀ s,
  consistent s →
  Forall (fun t => ti_time t < B) (flattenedSequence (execution s)) →
  countdown (programState (execution s)) < B →
  countdown (programState (execution (run (repeat (Tick h) n) s))) < B.
Proof.
  induction n as [|n IH]; intros s Hcons Hseq Hc; [done|].
  rewrite run_ticks_succ.
  destruct (tick_bounded B h s Hcons Hseq Hc) as [Hq Hc'].
  apply IH; [by apply consistent_handle | by rewrite Hq | done].
Qed.

(** X10: a program whose instructions expand to a non-empty sequence of
    durations below [2^53] runs for one tick per second of every step that
    is positive plus one tick per step: before that many ticks it is still
    running, at that tick it stops at the last index, having played the
    notification once per step.  The countdown stays below [2^53]
    throughout, so every second the page takes off it is taken off exactly
    in doubles. *)
Theorem run_to_completion stored (s : Home) (first : TimeInstruction)
    (rest : list TimeInstruction) :
  reachable stored s →
  flattenInstructionsEntire (instructions (builder s)) = first :: rest →
  Forall (fun t => ti_time t < 2 ^ 53) (first :: rest) →
  let h := nextTimer (browser s) in
  let total := ticksFor (durations (first :: rest)) in
  let after n := run (StartProgram :: repeat (Tick h) n) s in
  (∀ n, (n < total)%nat → running (after n) = true)
  ∧ running (after total) = false
  ∧ audioPlays (browser (after total)) = (audioPlays (browser s) + length (first :: rest))%nat
  ∧ index (programState (execution (after total))) = length rest
  ∧ (∀ n, countdown (programState (execution (after n))) < 2 ^ 53
          ∧ (0 < countdown (programState (execution (after n))) →
             Binary64.sub (Binary64.Int (countdown (programState (execution (after n)))))
                          (Binary64.Int 1)
             = Binary64.Int (countdown (programState (execution (after n))) - 1))).
Proof.
  intros Hs E Hbound h total after. apply reachable_consistent in Hs.
  destruct (start_spec s first rest E) as (O & Q & R & _).
  assert (consistent (handle StartProgram s)) as Hc0 by by apply consistent_handle.
  assert (runningAt (handle StartProgram s) h (first :: rest) 0 (ti_time first)
                    (audioPlays (browser s))) as Hat by by split_and!.
  destruct (run_to_end (Z.to_nat (ti_time first) + ticksFor (durations rest))
              _ _ _ _ _ _ Hat) as (Hbefore & Hend & Hplays & Hidx).
  { reflexivity. }
  change total with (S (Z.to_nat (ti_time first) + ticksFor (durations rest))).
  split_and!.
  - intros n Hn. apply Hbefore. lia.
  - exact Hend.
  - change (audioPlays (browser (run (repeat (Tick h)
              (S (Z.to_nat (ti_time first) + ticksFor (durations rest))))
              (handle StartProgram s)))
            = (audioPlays (browser s) + length (first :: rest))%nat).
    rewrite Hplays. change (drop 1 (first :: rest)) with rest. simpl. lia.
  - exact Hidx.
  - intros n.
    assert (countdown (programState (execution (after n))) < 2 ^ 53) as Hn.
    { change (after n) with (run (repeat (Tick h) n) (handle StartProgram s)).
      apply run_ticks_bounded; [done | by rewrite Q |].
      pose proof (f_equal (fun o => snd (fst (fst o))) O) as Oc.
      unfold observe, runState in Oc. cbn [fst snd] in Oc. rewrite Oc.
      by apply Forall_cons in Hbound as [? _]. }
    split; [exact Hn|]. intros Hpos. simpl. apply ofZ_safe. unfold safe. lia.
Qed.

Lemma run_to_completion_witness :
  reachable None sessionBuilt
  ∧ running (run (StartProgram :: repeat (Tick (nextTimer (browser sessionBuilt)))
                    (ticksFor (durations [mkTime 0 2; mkTime 1 1]))) sessionBuilt)
    = false.
Proof.
  split; [apply sessionBuilt_reachable|].
  assert (flattenInstructionsEntire (instructions (builder sessionBuilt))
          = [mkTime 0 2; mkTime 1 1]) as E by (vm_compute; reflexivity).
  assert (Forall (fun t => ti_time t < 2 ^ 53) [mkTime 0 2; mkTime 1 1]) as Hb.
  { repeat constructor; simpl; lia. }
  destruct (run_to_completion None sessionBuilt (mkTime 0 2) [mkTime 1 1]
              sessionBuilt_reachable E Hb) as (_ & Hend & _).
  exact Hend.
Defined.

(** ** What the runner and the builder leave alone *)

Section Frames.

Implicit Types (s : Home) (ev : Event).


End Frames.

(** X11: starting, stopping, ticking and editing the current step never
    change the authored instructions, the input fields, the identifier
    counters or the saved timers; every other event leaves the run (sequence,
    index, countdown, running flag, interval) and the notification count as
    they were. *)
Theorem runner_builder_separate (ev : Event) (s : Home) :
  (quiet ev = false →
   builder (handle ev s) = builder s ∧ saved (handle ev s) = saved s)
  ∧ (quiet ev = true →
     execution (handle ev s) = execution s
     ∧ timers (browser (handle ev s)) = timers (browser s)
     ∧ audioPlays (browser (handle ev s)) = audioPlays (browser s)).
Proof.
  split; intros Hq.
  - rewrite handle_builder, handle_saved. by apply update_runner_builder_saved.
  - destruct (quiet_frame ev s Hq) as [He Hw].
    rewrite handle_frame by done. unfold saveEffect. simpl. by rewrite He, Hw.
Qed.

Lemma runner_builder_separate_witness :
  builder (handle (Tick 1) sessionLastSecond) = builder sessionLastSecond
  ∧ execution (handle AddRepeatInstruction sessionBuilt) = execution sessionBuilt.
Proof.
  split.
  - apply (runner_builder_separate (Tick 1) sessionLastSecond). reflexivity.
  - apply (runner_builder_separate AddRepeatInstruction sessionBuilt). reflexivity.
Defined.

(** X12: in every state the page can reach, no interval is live while no
    program runs; while one runs, exactly one interval is live, it is the one
    held in [programIntervalRef], its callback sees the current flat
    sequence, and the current index is inside that sequence. *)
Theorem one_live_interval stored (s : Home) :
  reachable stored s →
  if running s
  then (index (programState (execution s)) < length (flattenedSequence (execution s)))%nat
       ∧ ∃ h, (0 < h)%nat
              ∧ programIntervalRef (execution s) = Some h
              ∧ timers (browser s) = {[h := flattenedSequence (execution s)]}
  else timers (browser s) = ∅.
Proof.
  intros Hs. apply reachable_consistent in Hs.
  destruct Hs as (_ & Href & _ & Hrun). unfold running.
  destruct (isProgramRunning (execution s)); [|done].
  destruct Hrun as (Hi & h & Eh & Et). split; [done|].
  exists h. split_and!; try done. by apply Href.
Qed.

Lemma one_live_interval_witness :
  reachable None sessionLastSecond
  ∧ timers (browser sessionLastSecond) !! 1%nat
    = Some (flattenedSequence (execution sessionLastSecond)).
Proof.
  pose proof sessionLastSecond_reachable as Hr.
  pose proof (one_live_interval None sessionLastSecond Hr) as H.
  assert (running sessionLastSecond = true) as E by reflexivity.
  rewrite E in H. destruct H as (_ & h & _ & Eh & Et).
  split; [exact Hr|].
  assert (programIntervalRef (execution sessionLastSecond) = Some 1%nat) as E1
    by reflexivity.
  rewrite E1 in Eh. injection Eh as <-. rewrite Et. apply lookup_singleton_eq.
Defined.



(** ** Durations stay positive and exact *)

Section Positive.

Implicit Types (s : Home) (ev : Event) (l : list Instruction).

Lemma safeTimes_snoc l inst :
  safeTimes l →
  match inst with ITime t => 0 < ti_time t < 2 ^ 53 | IRepeat _ _ => True end →
  safeTimes (l ++ [inst]).
Proof. intros Hl Hinst. apply Forall_app. split; [done|]. by constructor. Qed.

Lemma safeTimes_flatten l :
  safeTimes l → Forall (fun t => 0 < ti_time t < 2 ^ 53) (flattenInstructionsEntire l).
Proof.
  intros Hl. apply Forall_forall. intros t Ht.
  apply flatten_elem in Ht. unfold safeTimes in Hl.
  rewrite Forall_forall in Hl. by apply (Hl (ITime t)).
Qed.

Lemma exactTime_safe str n : exactTime str → parseTimeInput str = Some n → n < 2 ^ 53.
Proof. unfold exactTime, safe. intros H E. rewrite E in H. lia. Qed.

Lemma editOne_safe inst reply :
  exactReply reply →
  match inst with ITime t => 0 < ti_time t < 2 ^ 53 | IRepeat _ _ => True end →
  match editOne inst reply with
  | ITime t => 0 < ti_time t < 2 ^ 53
  | IRepeat _ _ => True
  end.
Proof.
  destruct inst as [t|id times], reply as [str|]; simpl; try done.
  - intros [Hex _] Ht. destruct (negb _); [|done].
    destruct (parseTimeInput str) as [n|] eqn:E; [destruct (0 <? n) eqn:En|]; try done.
    simpl. pose proof (exactTime_safe _ _ Hex E). lia.
  - intros _ _. destruct (negb _); [|done].
    destruct (JS.parseInt str 10) as [n|]; [destruct (0 <? n)|]; done.
Qed.

Lemma editAll_safe id l replies :
  Forall exactReply replies → safeTimes l → safeTimes (editAll id l replies).
Proof.
  unfold safeTimes.
  revert replies; induction l as [|inst l IH]; intros replies Hrep Hl; simpl; [done|].
  apply Forall_cons in Hl as [Hinst Hl].
  destruct (Nat.eqb (inst_id inst) id); constructor.
  - apply editOne_safe; [|done]. destruct Hrep; simpl; done.
  - apply IH; [|done]. destruct Hrep; simpl; [constructor|done].
  - done.
  - by apply IH.
Qed.

Lemma safeRun_quiet ev s :
  quiet ev = true → enabled s ev → exactEvent s ev → safeRun s → safeRun (handle ev s).
Proof.
  intros Hq Hen Hex (Hl & Hsaved & Hseq & Hc).
  destruct (quiet_frame ev s Hq) as [He Hw].
  unfold safeRun. rewrite handle_builder, handle_saved.
  rewrite handle_frame by done. unfold saveEffect. simpl execution. rewrite He.
  cut (safeTimes (instructions (builder (update ev s)))
       ∧ Forall (fun timer => safeTimes (st_instructions timer))
                (savedTimers (saved (update ev s)))); [by intros [? ?]|].
  destruct ev; try discriminate; simpl; try done.
  - unfold addTimeInstruction. simpl in Hex.
    destruct (parseTimeInput _) as [n|] eqn:E; [destruct (n <=? 0) eqn:En|]; try done.
    simpl. split; [|done]. apply safeTimes_snoc; [done|]. simpl.
    pose proof (exactTime_safe _ _ Hex E). lia.
  - unfold addRepeatInstruction. destruct (negb _); [done|].
    simpl. split; [|done]. by apply safeTimes_snoc.
  - unfold editInstruction. destruct (editingRef _); [done|]. simpl.
    split; [|done]. by apply editAll_safe.
  - split; [|done]. eapply Forall_sublist; [exact Hl | apply sublist_filter].
  - split; [constructor | done].
  - unfold saveOrUpdateTimer. destruct (_ || _); [done|].
    destruct (loadedTimerId _) as [loaded|]; simpl; (split; [done|]).
    + rewrite Forall_forall in Hsaved. apply Forall_forall.
      intros timer [t [-> Ht]]%list_elem_of_fmap.
      destruct (Nat.eqb (st_id t) loaded); [done | by apply Hsaved].
    + apply Forall_app. split; [done|]. by constructor.
  - destruct Hen as [_ Hin]. rewrite Forall_forall in Hsaved. split; [|by apply Forall_forall].
    by apply Hsaved.
  - unfold editSavedTimer. destruct reply as [newName|]; [|done].
    destruct (JS.truthy _); [|done]. simpl. split; [done|].
    rewrite Forall_forall in Hsaved. apply Forall_forall.
    intros timer [t [-> Ht]]%list_elem_of_fmap.
    destruct (Nat.eqb (st_id t) id); simpl; by apply Hsaved.
  - split; [done|]. eapply Forall_sublist; [exact Hsaved | apply sublist_filter].
Qed.

Lemma safeRun_runner ev s :
  quiet ev = false → consistent s → exactEvent s ev → safeRun s → safeRun (handle ev s).
Proof.
  intros Hq Hcons Hex (Hl & Hsaved & Hseq & Hc).
  destruct (update_runner_builder_saved ev s Hq) as [Hb Hv].
  unfold safeRun. rewrite handle_builder, handle_saved, Hb, Hv.
  split; [done|]. split; [done|].
  unfold handle.
  destruct (render_run_fields s (update ev s)) as (-> & -> & _).
  destruct ev; try discriminate; simpl.
  - unfold startProgram.
    destruct (flattenInstructionsEntire (instructions (builder s)))
      as [|first rest] eqn:E; [done|].
    simpl. pose proof (safeTimes_flatten _ Hl) as Hflat. rewrite E in Hflat.
    split; [done|]. apply Forall_cons in Hflat as [Hfirst _]. lia.
  - unfold stopProgram, clearProgramInterval. simpl.
    destruct (programIntervalRef _) as [h|]; [destruct (Nat.eqb h 0)|]; done.
  - unfold editCurrentInstruction.
    destruct (negb _); [done|]. destruct (_ !! _) as [cur|]; [|done].
    destruct reply as [str|]; [|done]. destruct (JS.truthy _); [|done].
    destruct (parseTimeInput str) as [n|] eqn:E; [|done].
    destruct (0 <? n) eqn:En; [|done]. simpl.
    destruct Hex as [Hex _]. pose proof (exactTime_safe _ _ Hex E).
    split; [|lia]. apply Forall_insert; [done|]. simpl. lia.
  - destruct (timers (browser s) !! _) as [sequence|] eqn:El; [|done].
    assert (sequence = flattenedSequence (execution s)) as ->.
    { destruct Hcons as (_ & _ & _ & Hrun).
      destruct (isProgramRunning (execution s)).
      - destruct Hrun as (_ & h & _ & Et). rewrite Et in El.
        by apply lookup_singleton_Some in El as [_ <-].
      - by rewrite Hrun, lookup_empty in El. }
    unfold intervalCallback.
    destruct (0 <? countdown (programState (execution s))) eqn:Ec; simpl.
    + split; [done|lia].
    + destruct (flattenedSequence (execution s) !! S _) as [next|] eqn:En; simpl.
      * split; [done|]. rewrite Forall_forall in Hseq.
        apply list_elem_of_lookup_2 in En. specialize (Hseq _ En). simpl in Hseq. lia.
      * done.
Qed.

Lemma reachableExactly_reachable stored s : reachableExactly stored s → reachable stored s.
Proof. induction 1; by constructor. Qed.

Lemma reachableExactly_run stored evs s :
  reachableExactly stored s → offeredExactly s evs →
  reachableExactly stored (run evs s).
Proof.
  revert s; induction evs as [|ev evs IH]; intros s Hs Hen; [done|].
  destruct Hen as [[Hev Hex] Hen]. apply IH; [|done]. by constructor.
Qed.

(** In doubles, taking one second off a countdown below [2^53] is exact. *)
Lemma decrement_exact c :
  0 < c < 2 ^ 53 →
  Binary64.sub (Binary64.Int c) (Binary64.Int 1) = Binary64.Int (c - 1).
Proof. intros Hc. simpl. apply ofZ_safe. unfold safe. lia. Qed.

End Positive.

(** X14: on a visit whose stored timers hold only durations between 1 and
    [2^53] (none stored, in particular) and on which every time or count
    typed or answered is read without rounding, every time instruction ever
    in the list, in a saved timer or in the flat sequence has a duration
    between 1 and [2^53], and the countdown shown stays between 0 and
    [2^53]: the integers the handlers compute with are the page's
    doubles. *)
Theorem durations_stay_positive stored (s : Home) :
  Forall (fun timer => safeTimes (st_instructions timer)) (default [] stored) →
  reachableExactly stored s →
  safeRun s.
Proof.
  intros Hstored Hs. induction Hs as [|s ev Hs IH Hen Hex].
  - unfold safeRun; simpl. split_and!; try done; constructor.
  - destruct (quiet ev) eqn:Hq.
    + by apply safeRun_quiet.
    + apply safeRun_runner; try done.
      apply reachable_consistent with stored. by apply reachableExactly_reachable.
Qed.

Lemma durations_stay_positive_witness :
  reachableExactly None sessionLastSecond ∧ safeRun sessionLastSecond.
Proof.
  assert (reachableExactly None sessionLastSecond) as Hr.
  { apply (reachableExactly_run None
             [TimeInputChange "2"; AddTimeInstruction; TimeInputChange "1";
              AddTimeInstruction; StartProgram; Tick 1; Tick 1; Tick 1; Tick 1]
             (mount None)); [constructor|].
    cbv [offeredExactly enabled exactEvent]. split_and!; try exact I;
      try (vm_compute; reflexivity).
    - unfold exactTime. split; [unfold safe; vm_compute; reflexivity | vm_compute; reflexivity].
    - unfold exactTime. split; [unfold safe; vm_compute; reflexivity | vm_compute; reflexivity]. }
  split; [exact Hr|].
  apply (durations_stay_positive None sessionLastSecond); [constructor | exact Hr].
Defined.

(** ** Saved timers *)

Section SavedTimers.

Implicit Types (s : Home) (ev : Event) (l : list SavedTimer) (timer : SavedTimer).

Lemma savedIds_replace l (P : SavedTimer → bool) (f : SavedTimer → SavedTimer) :
  (∀ t, st_id (f t) = st_id t) →
  savedIds (map (fun t => if P t then f t else t) l) = savedIds l.
Proof.
  intros Hf. unfold savedIds. induction l as [|t l IH]; simpl; [done|].
  rewrite IH. by destruct (P t); rewrite ?Hf.
Qed.

Lemma savedIds_inj l t1 t2 :
  NoDup (savedIds l) → t1 ∈ l → t2 ∈ l → st_id t1 = st_id t2 → t1 = t2.
Proof.
  unfold savedIds. induction l as [|t l IH]; simpl; [by intros _ ?%elem_of_nil|].
  intros [Ht Hd]%NoDup_cons H1 H2 E.
  apply elem_of_cons in H1 as [->|H1], H2 as [->|H2]; try done.
  - exfalso. apply Ht. rewrite E. apply list_elem_of_fmap. by exists t2.
  - exfalso. apply Ht. rewrite <- E. apply list_elem_of_fmap. by exists t1.
  - by apply IH.
Qed.

Lemma update_loaded_same l timer :
  NoDup (savedIds l) → timer ∈ l →
  map (fun t => if Nat.eqb (st_id t) (st_id timer)
                then mkSaved (st_id t) (st_name timer) (st_instructions timer)
                else t) l
  = l.
Proof.
  intros Hd Hin. rewrite <- (map_id l) at 2. apply map_ext_in.
  intros t Ht%list_elem_of_In. destruct (Nat.eqb (st_id t) (st_id timer)) eqn:E; [|done].
  apply Nat.eqb_eq in E. assert (t = timer) as -> by by apply (savedIds_inj l).
  by destruct timer.
Qed.

Lemma update_missing_same l id name instrs :
  id ∉ savedIds l →
  map (fun t => if Nat.eqb (st_id t) id then mkSaved (st_id t) name instrs else t) l = l.
Proof.
  unfold savedIds. induction l as [|t l IH]; simpl; [done|].
  rewrite not_elem_of_cons. intros [Hne Hl].
  rewrite (proj2 (Nat.eqb_neq (st_id t) id)) by done. by rewrite IH.
Qed.

Lemma savedIds_filter_out l id :
  id ∉ savedIds (filter (fun t => st_id t ≠ id) l).
Proof.
  unfold savedIds. intros [t [E Ht]]%list_elem_of_fmap.
  apply list_elem_of_filter in Ht as [Hne _]. by apply Hne.
Qed.

(** The saved identifiers are pairwise distinct and below the counter. *)
Lemma savedIssued_update ev s :
  NoDup (savedIds (savedTimers (saved s)))
  ∧ Forall (fun i => (i < savedTimerIdRef (saved s))%nat) (savedIds (savedTimers (saved s))) →
  NoDup (savedIds (savedTimers (saved (update ev s))))
  ∧ Forall (fun i => (i < savedTimerIdRef (saved (update ev s)))%nat)
           (savedIds (savedTimers (saved (update ev s)))).
Proof.
  intros [Hd Hb]. destruct (quiet ev) eqn:Eq; cycle 1.
  { destruct (update_runner_builder_saved ev s Eq) as [_ ->]. done. }
  destruct ev; try discriminate; simpl; try done.
  - unfold addTimeInstruction.
    destruct (parseTimeInput _) as [n|]; [destruct (n <=? 0)|]; done.
  - unfold addRepeatInstruction. by destruct (negb _).
  - unfold editInstruction. by destruct (editingRef _).
  - unfold saveOrUpdateTimer. destruct (_ || _); [done|].
    destruct (loadedTimerId _) as [loaded|]; simpl.
    + by rewrite (savedIds_replace _ (fun t => Nat.eqb (st_id t) loaded)
                    (fun t => mkSaved (st_id t) _ _)).
    + unfold savedIds in *. rewrite map_app. simpl. split.
      * apply NoDup_app. split_and!; [done| |apply NoDup_singleton].
        intros i Hi ->%list_elem_of_singleton.
        rewrite Forall_forall in Hb. specialize (Hb _ Hi). lia.
      * apply Forall_app. split.
        -- eapply Forall_impl; [exact Hb|]. simpl. lia.
        -- constructor; [lia|constructor].
  - unfold editSavedTimer. destruct reply as [newName|]; [|done].
    destruct (JS.truthy _); [|done]. simpl.
    by rewrite (savedIds_replace _ (fun t => Nat.eqb (st_id t) id)
                  (fun t => mkSaved (st_id t) _ _)).
  - assert (sublist (savedIds (filter (fun t => st_id t ≠ id) (savedTimers (saved s))))
                    (savedIds (savedTimers (saved s)))) as Hsub.
    { apply fmap_sublist, sublist_filter. }
    split; [by eapply sublist_NoDup | by eapply Forall_sublist].
Qed.

End SavedTimers.

(** X15: on a visit that finds no saved timers, the identifiers of the
    saved timers stay pairwise distinct, whatever is saved, updated, renamed
    or deleted. *)
Theorem saved_ids_unique_within_visit stored (s : Home) :
  default [] stored = [] → reachable stored s →
  NoDup (savedIds (savedTimers (saved s))).
Proof.
  intros Hstored Hs.
  cut (NoDup (savedIds (savedTimers (saved s)))
       ∧ Forall (fun i => (i < savedTimerIdRef (saved s))%nat)
                (savedIds (savedTimers (saved s)))); [by intros [? _]|].
  induction Hs as [|s ev _ IH _].
  - simpl. rewrite Hstored. split; constructor.
  - rewrite handle_saved. by apply savedIssued_update.
Qed.

Lemma saved_ids_unique_within_visit_witness :
  reachable None sessionSaved ∧ NoDup (savedIds (savedTimers (saved sessionSaved))).
Proof.
  assert (reachable None sessionSaved) as Hr.
  { apply reachable_run; [constructor | offered]. }
  split; [exact Hr|].
  exact (saved_ids_unique_within_visit None sessionSaved eq_refl Hr).
Defined.

(** X16: while saved identifiers are pairwise distinct, loading a saved
    timer and pressing Update right away leaves the list of saved timers as
    it was. *)
Theorem load_then_update_same (s : Home) (timer : SavedTimer) :
  NoDup (savedIds (savedTimers (saved s))) →
  timer ∈ savedTimers (saved s) →
  savedTimers (saved (run [LoadTimer timer; SaveOrUpdateTimer] s))
  = savedTimers (saved s).
Proof.
  intros Hd Hin. unfold run. simpl fold_left.
  set (s1 := handle (LoadTimer timer) s).
  assert (builder s1 = builder (loadTimer timer s)) as Hb by apply handle_builder.
  assert (saved s1 = saved (loadTimer timer s)) as Hv by apply handle_saved.
  rewrite handle_saved. simpl update. unfold saveOrUpdateTimer. rewrite Hb, Hv. simpl.
  destruct (_ || _); [by rewrite Hv|]. simpl.
  by apply update_loaded_same.
Qed.

Lemma load_then_update_same_witness :
  savedTimers (saved (run [LoadTimer (mkSaved 0 "t" [ITime (mkTime 0 5)]);
                           SaveOrUpdateTimer] sessionSaved))
  = savedTimers (saved sessionSaved).
Proof.
  apply (load_then_update_same sessionSaved (mkSaved 0 "t" [ITime (mkTime 0 5)])).
  - apply (bool_decide_unpack _). vm_compute. exact I.
  - vm_compute. apply list_elem_of_here.
Defined.

(** X17: when the loaded timer has been deleted, pressing Update stores
    nothing: the timer stays deleted and no other saved timer changes. *)
Theorem update_after_delete_stores_nothing (s : Home) (timer : SavedTimer) :
  savedTimers (saved (run [LoadTimer timer; DeleteSavedTimer (st_id timer);
                           SaveOrUpdateTimer] s))
  = filter (fun t => st_id t ≠ st_id timer) (savedTimers (saved s)).
Proof.
  unfold run. simpl fold_left.
  set (s1 := handle (LoadTimer timer) s).
  set (s2 := handle (DeleteSavedTimer (st_id timer)) s1).
  assert (saved s1 = saved (loadTimer timer s)) as Hv1 by apply handle_saved.
  assert (saved s2 = saved (deleteSavedTimer (st_id timer) s1)) as Hv2 by apply handle_saved.
  clearbody s1 s2.
  assert (savedTimers (saved s2)
          = filter (fun t => st_id t ≠ st_id timer) (savedTimers (saved s))) as Hl.
  { rewrite Hv2. simpl. by rewrite Hv1. }
  assert (loadedTimerId (saved s2) = Some (st_id timer)) as Hloaded.
  { rewrite Hv2. simpl. by rewrite Hv1. }
  rewrite handle_saved. simpl update. unfold saveOrUpdateTimer.
  destruct (_ || _); [done|]. rewrite Hloaded. simpl. rewrite Hl.
  apply update_missing_same, savedIds_filter_out.
Qed.


Lemma ids_unique_within_visit_witness :
  reachable None sessionBuilt ∧ NoDup (ids (instructions (builder sessionBuilt))).
Proof.
  split; [apply sessionBuilt_reachable|].
  exact (ids_unique_within_visit None sessionBuilt eq_refl sessionBuilt_reachable).
Defined.

(** ** Restarting *)

Lemma run_runner_builder evs s :
  Forall (fun ev => quiet ev = false) evs → builder (run evs s) = builder s.
Proof.
  revert s; induction evs as [|ev evs IH]; intros s Hq; [done|].
  apply Forall_cons in Hq as [Hev Hq]. simpl. unfold run in IH. rewrite IH by done.
  rewrite handle_builder. by apply update_runner_builder_saved.
Qed.

(** X20: whatever happened during earlier runs (ticks, stops, edits of the
    current step, restarts), Start Program expands the authored instructions
    again and begins at their first step: durations patched while running
    are not kept. *)
Theorem restart_uses_authored (s : Home) (evs : list Event)
    (first : TimeInstruction) (rest : list TimeInstruction) :
  Forall (fun ev => quiet ev = false) evs →
  flattenInstructionsEntire (instructions (builder s)) = first :: rest →
  flattenedSequence (execution (handle StartProgram (run evs s))) = first :: rest
  ∧ runState (handle StartProgram (run evs s)) = (0%nat, ti_time first)
  ∧ running (handle StartProgram (run evs s)) = true.
Proof.
  intros Hq E.
  assert (flattenInstructionsEntire (instructions (builder (run evs s))) = first :: rest)
    as E' by by rewrite run_runner_builder.
  destruct (start_spec (run evs s) first rest E') as (O & Q & _).
  pose proof (f_equal (fun o => fst (fst o)) O) as O1.
  pose proof (f_equal (fun o => snd (fst o)) O) as O2.
  unfold observe in O1, O2. cbn [fst snd] in O1, O2. done.
Qed.

Lemma restart_uses_authored_witness :
  flattenedSequence
    (execution (handle StartProgram
                  (run [StartProgram; EditCurrentInstruction (Some "9"%string);
                        StopProgram] sessionBuilt)))
  = [mkTime 0 2; mkTime 1 1].
Proof.
  apply (restart_uses_authored sessionBuilt
           [StartProgram; EditCurrentInstruction (Some "9"%string); StopProgram]
           (mkTime 0 2) [mkTime 1 1]).
  - repeat constructor.
  - vm_compute. reflexivity.
Defined.
